(** * cmd/mountlib/rc.go: the remote-control surface of the mount library

    A shallow embedding of [cmd/mountlib/rc.go]: the two package-level maps
    [mountFns] and [liveMounts], their mutexes, and the functions [AddRc],
    [mountRc], [unMountRc], [performUnMount], [mountTypesRc] and
    [listMountsRc].

    Go code is embedded in a small state monad.  A run is single threaded;
    it threads the package state and the outside world, may panic, and
    records every lock operation, every access to one of the two maps and
    every invocation of a function value in a chronological trace. *)

From Stdlib Require Import ZArith.
From stdpp Require Import gmap strings list sorting.

Open Scope string_scope.
Open Scope list_scope.

(** ** Values shared with other packages *)

(** Go's [error] values.  [errors_New] is [errors.New] of github.com/pkg/errors;
    the two [ErrParam] forms are the errors of [rc.Params.Get]. *)
Inductive error : Type :=
| errors_New (text : string)
| ErrParamNotFound (key : string)
| ErrParamInvalid (key : string).

Global Instance error_eq_dec : EqDecision error.
Proof. solve_decision. Defined.

(** [time.Time], as an instant on the integer time line. *)
Definition Time : Type := Z.

(** What a call can end in: a normal return or a run-time panic. *)
Inductive Result (A : Type) : Type :=
| Returns (a : A)
| Panics (reason : string).
Arguments Returns {A} a.
Arguments Panics {A} reason.

(** The panic of calling a nil func value. *)
Definition nil_func_call : string :=
  "invalid memory address or nil pointer dereference".

(** The two package-level mutexes, and the two maps they are declared for. *)
Inductive Mutex : Type := mountFnsMutex | liveMountsMutex.
Inductive Table : Type := TmountFns | TliveMounts.

Global Instance Mutex_eq_dec : EqDecision Mutex.
Proof. solve_decision. Defined.
Global Instance Table_eq_dec : EqDecision Table.
Proof. solve_decision. Defined.

(** One observable step of a run:
    - [EvLock], [EvUnlock]: [Lock()] and [Unlock()] of a mutex;
    - [EvRead]: an index expression, a comma-ok lookup or a [range] over a map;
    - [EvWrite]: an assignment to a map entry or a [delete];
    - [EvCallMount]: the call [mountFns[mountType](fdst, mountPoint)];
    - [EvCallUnmount]: the call [mountInfo.unmountFn()] for the record of
      [mountPoint];
    - [EvPrintf], [EvDebugf]: [log.Printf] and [fs.Debugf]. *)
Inductive Event : Type :=
| EvLock (mu : Mutex)
| EvUnlock (mu : Mutex)
| EvRead (t : Table)
| EvWrite (t : Table)
| EvCallMount (mountType mountPoint : string)
| EvCallUnmount (mountPoint : string)
| EvPrintf (format : string) (err : error)
| EvDebugf (format : string) (args : list string).

Global Instance Event_eq_dec : EqDecision Event.
Proof. solve_decision. Defined.

(** JSON documents, as far as struct tags determine them. *)
Inductive JSON : Type :=
| JString (s : string)
| JTime (t : Time).

Section Mountlib.

(** [World] is everything outside this package that a mount backend, a
    teardown function or the remote cache can read or change.  [fs_Fs] is
    the interface type [fs.Fs] of resolved sources. *)
Context {World fs_Fs : Type}.

(** ** Data model *)

(** [UnmountFn], a [func() error]; [None] is the nil func. *)
Definition UnmountFn : Type := option (World → option error * World).

(** What a mount function hands back.  Of its four results [mountRc] binds
    only the last two; the first two are discarded by [_, _]. *)
Record MountResult : Type := mkMountResult {
  mr_unmountFn : UnmountFn;
  mr_err : option error;
}.

(** [MountFn], a func of a source handle and a mount point; [None] is nil.
    A mount function and the teardown it hands back are code of a backend:
    they act on the world, return, and do not call into this package. *)
Definition MountFn : Type :=
  option (fs_Fs → string → World → MountResult * World).

(** [type MountInfo struct]. *)
Record MountInfo : Type := mkMountInfo {
  unmountFn : UnmountFn;
  MountPoint : string;
  MountedOn : Time;
  Fs : string;
}.

(** The fields [encoding/json] emits for a [MountInfo]: the exported fields
    under their [json] tags, in declaration order.  [unmountFn] is
    unexported and never leaves the process. *)
Definition MountInfo_json (a : MountInfo) : list (string * JSON) :=
  [("MountPoint", JString (MountPoint a));
   ("MountedOn", JTime (MountedOn a));
   ("Fs", JString (Fs a))].

(** The dynamic values an [rc.Params] map holds here. *)
Inductive Value : Type :=
| VString (s : string)
| VStrings (l : list string)          (* []string *)
| VMountInfos (l : list MountInfo)    (* []MountInfo *)
| VOther.                             (* any other value *)

(** [rc.Params], a [map[string]interface{}]. *)
Definition Params : Type := gmap string Value.

(** Modelled from the spec: [rc.Params.GetString] lives in package fs/rc,
    outside the file embedded here.  The dispatcher supplies named
    parameters, and a required one that is absent is an error raised at
    once.  A value that is not a string cannot be handed out as one and is
    an error as well.  Beside an error the string result is Go's zero
    value, the empty string. *)
Definition GetString (p : Params) (key : string) : string * option error :=
  match p !! key with
  | None => ("", Some (ErrParamNotFound key))
  | Some (VString s) => (s, None)
  | Some _ => ("", Some (ErrParamInvalid key))
  end.

(** The collaborators this file calls into. *)
Class Collaborators : Type := {
  (** [fdst.Name()] and [fdst.String()] *)
  Fs_Name : fs_Fs → string;
  Fs_String : fs_Fs → string;
  (** [rc.GetFs(in)]: resolve the [fs] parameter to a handle, or fail *)
  rc_GetFs : Params → World → (fs_Fs + error) * World;
  (** [time.Now()] *)
  time_Now : World → Time;
  (** the order in which a [range] loop visits a map: every entry once,
      in an order the language leaves open *)
  range_order : ∀ A : Type, World → gmap string A → list (string * A);
  range_order_perm : ∀ A w (m : gmap string A),
    range_order A w m ≡ₚ map_to_list m;
}.

Context `{!Collaborators}.

(** ** Package state *)

Record State : Type := mkState {
  mountFns : gmap string MountFn;       (* Mount functions available *)
  liveMounts : gmap string MountInfo;   (* Map of mounted path => MountInfo *)
  world : World;
  trace : list Event;
}.

Definition set_mountFns (f : gmap string MountFn) (st : State) : State :=
  mkState f (liveMounts st) (world st) (trace st).
Definition set_liveMounts (l : gmap string MountInfo) (st : State) : State :=
  mkState (mountFns st) l (world st) (trace st).
Definition set_world (w : World) (st : State) : State :=
  mkState (mountFns st) (liveMounts st) w (trace st).
Definition set_trace (tr : list Event) (st : State) : State :=
  mkState (mountFns st) (liveMounts st) (world st) tr.

(** ** The monad of Go statements *)

Definition Go (A : Type) : Type := State → Result A * State.

Definition ret {A} (a : A) : Go A := λ st, (Returns a, st).

Definition bind {A B} (m : Go A) (k : A → Go B) : Go B :=
  λ st, match m st with
        | (Returns a, st') => k a st'
        | (Panics why, st') => (Panics why, st')
        end.

Definition panic {A} (why : string) : Go A := λ st, (Panics why, st).

(** [defer d]: [d] runs when the body is left, by return or by panic. *)
Definition defer {A} (d : Go unit) (body : Go A) : Go A :=
  λ st, let '(r, st') := body st in (r, snd (d st')).

Definition emit (e : Event) : Go unit :=
  λ st, (Returns tt, set_trace (trace st ++ [e]) st).

End Mountlib.

Arguments Collaborators : clear implicits.
Arguments State : clear implicits.
Arguments Go : clear implicits.
Arguments Params : clear implicits.
Arguments MountInfo : clear implicits.
Arguments MountFn : clear implicits.
Arguments UnmountFn : clear implicits.
Arguments MountResult : clear implicits.
Arguments Value : clear implicits.

Declare Scope go_scope.
Delimit Scope go_scope with go.
Notation "x <- m ;; k" := (bind m (λ x, k))
  (at level 100, m at next level, right associativity) : go_scope.
Notation "m ;; k" := (bind m (λ _, k))
  (at level 100, right associativity) : go_scope.
Open Scope go_scope.

(** ** Statements over the package state *)

Section Operations.

Context {World fs_Fs : Type} `{!Collaborators World fs_Fs}.

Definition not_nil {A} (f : option A) : bool :=
  match f with Some _ => true | None => false end.

(** [m[key]] on a map of func values: the zero value, nil, for a missing
    key. *)
Definition map_index {A} (m : gmap string (option A)) (key : string)
  : option A :=
  default None (m !! key).

Definition Lock (mu : Mutex) : Go World fs_Fs unit := emit (EvLock mu).
Definition Unlock (mu : Mutex) : Go World fs_Fs unit := emit (EvUnlock mu).

(** [mountFns[key]] *)
Definition mountFns_index (key : string)
  : Go World fs_Fs (MountFn World fs_Fs) :=
  emit (EvRead TmountFns);;
  λ st, (Returns (map_index (mountFns st) key), st).

(** [mountFns[key] = f] *)
Definition mountFns_store (key : string) (f : MountFn World fs_Fs)
  : Go World fs_Fs unit :=
  emit (EvWrite TmountFns);;
  λ st, (Returns tt, set_mountFns (<[key := f]> (mountFns st)) st).

(** [range mountFns] *)
Definition mountFns_range
  : Go World fs_Fs (list (string * MountFn World fs_Fs)) :=
  emit (EvRead TmountFns);;
  λ st, (Returns (range_order _ (world st) (mountFns st)), st).

(** [mountInfo, ok := liveMounts[key]] *)
Definition liveMounts_lookup (key : string)
  : Go World fs_Fs (option (MountInfo World)) :=
  emit (EvRead TliveMounts);;
  λ st, (Returns (liveMounts st !! key), st).

(** [liveMounts[key] = mi] *)
Definition liveMounts_store (key : string) (mi : MountInfo World)
  : Go World fs_Fs unit :=
  emit (EvWrite TliveMounts);;
  λ st, (Returns tt, set_liveMounts (<[key := mi]> (liveMounts st)) st).

(** [delete(liveMounts, key)] *)
Definition liveMounts_delete (key : string) : Go World fs_Fs unit :=
  emit (EvWrite TliveMounts);;
  λ st, (Returns tt, set_liveMounts (delete key (liveMounts st)) st).

(** [range liveMounts] *)
Definition liveMounts_range
  : Go World fs_Fs (list (string * MountInfo World)) :=
  emit (EvRead TliveMounts);;
  λ st, (Returns (range_order _ (world st) (liveMounts st)), st).

(** [f(fdst, mountPoint)] where [f] was read from [mountFns[mountType]].
    Calling nil panics before anything is invoked. *)
Definition call_MountFn (mountType : string) (f : MountFn World fs_Fs)
    (fdst : fs_Fs) (mountPoint : string) : Go World fs_Fs (MountResult World) :=
  match f with
  | None => panic nil_func_call
  | Some g =>
      emit (EvCallMount mountType mountPoint);;
      λ st, let '(r, w) := g fdst mountPoint (world st) in
            (Returns r, set_world w st)
  end.

(** [u()] where [u] is the [unmountFn] of the record at [mountPoint]. *)
Definition call_UnmountFn (mountPoint : string) (u : UnmountFn World)
  : Go World fs_Fs (option error) :=
  match u with
  | None => panic nil_func_call
  | Some g =>
      emit (EvCallUnmount mountPoint);;
      λ st, let '(r, w) := g (world st) in (Returns r, set_world w st)
  end.

Definition call_rc_GetFs (in_ : Params World)
  : Go World fs_Fs (fs_Fs + error) :=
  λ st, let '(r, w) := rc_GetFs in_ (world st) in (Returns r, set_world w st).

Definition call_time_Now : Go World fs_Fs Time :=
  λ st, (Returns (time_Now (world st)), st).

(** [sort.Strings]: increasing order, strings compared byte by byte. *)
Definition sort_Strings (l : list string) : list string :=
  merge_sort String.le l.

(** ** The functions of rc.go *)

(** [AddRc] adds mount and unmount functionality to rc. *)
Definition AddRc (mountUtilName : string) (mountFunction : MountFn World fs_Fs)
  : Go World fs_Fs unit :=
  Lock mountFnsMutex;;
  mountFns_store mountUtilName mountFunction;;
  Unlock mountFnsMutex.

Definition ErrInvalidBackend : error :=
  errors_New "Mount Option specified is not registered, or is invalid".
Definition ErrNotFound : error := errors_New "mount not found".

(** The first block of [mountRc]: read [mountType] and, when it is absent
    or empty, probe [mount], [cmount], [mount2]. *)
Definition resolveMountType (in_ : Params World) : Go World fs_Fs string :=
  let '(mountType, err) := GetString in_ "mountType" in
  if not_nil err || bool_decide (mountType = "") then
    f <- mountFns_index "mount";;
    if not_nil f then ret "mount" else
    f <- mountFns_index "cmount";;
    if not_nil f then ret "cmount" else
    f <- mountFns_index "mount2";;
    if not_nil f then ret "mount2" else
    ret mountType
  else ret mountType.

(** [mountRc] allows the mount command to be run from rc. *)
Definition mountRc (in_ : Params World)
  : Go World fs_Fs (option (Params World) * option error) :=
  let '(mountPoint, err) := GetString in_ "mountPoint" in
  match err with
  | Some e => ret (None, Some e)
  | None =>
    mountType <- resolveMountType in_;;
    r <- call_rc_GetFs in_;;
    match r with
    | inr e => ret (None, Some e)
    | inl fdst =>
      f <- mountFns_index mountType;;
      if not_nil f then
        f <- mountFns_index mountType;;
        res <- call_MountFn mountType f fdst mountPoint;;
        Lock liveMountsMutex;;
        now <- call_time_Now;;
        liveMounts_store mountPoint
          {| unmountFn := mr_unmountFn res;
             MountedOn := now;
             Fs := Fs_Name fdst;
             MountPoint := mountPoint |};;
        Unlock liveMountsMutex;;
        match mr_err res with
        | Some e =>
            emit (EvPrintf "mount FAILED: %v" e);;
            ret (None, Some e)
        | None =>
            emit (EvDebugf "Mount for %s created at %s using %s"
                    [Fs_String fdst; mountPoint; mountType]);;
            ret (None, None)
        end
      else ret (None, Some ErrInvalidBackend)
    end
  end.

(** [performUnMount] unmounts the specified mountPoint. *)
Definition performUnMount (mountPoint : string)
  : Go World fs_Fs (option error) :=
  Lock liveMountsMutex;;
  defer (Unlock liveMountsMutex) (
    mountInfo <- liveMounts_lookup mountPoint;;
    match mountInfo with
    | Some mountInfo =>
        err <- call_UnmountFn mountPoint (unmountFn mountInfo);;
        match err with
        | Some e => ret (Some e)
        | None => liveMounts_delete mountPoint;; ret None
        end
    | None => ret (Some ErrNotFound)
    end).

(** [unMountRc] allows the umount command to be run from rc. *)
Definition unMountRc (in_ : Params World)
  : Go World fs_Fs (option (Params World) * option error) :=
  let '(mountPoint, err) := GetString in_ "mountPoint" in
  match err with
  | Some e => ret (None, Some e)
  | None =>
    err <- performUnMount mountPoint;;
    match err with
    | Some e => ret (None, Some e)
    | None => ret (None, None)
    end
  end.

(** [mountTypesRc] returns a list of available mount types. *)
Definition mountTypesRc (in_ : Params World)
  : Go World fs_Fs (option (Params World) * option error) :=
  Lock mountFnsMutex;;
  entries <- mountFns_range;;
  let mountTypes := foldl (λ acc kv, acc ++ [fst kv]) [] entries in
  Unlock mountFnsMutex;;
  let mountTypes := sort_Strings mountTypes in
  ret (Some {[ "mountTypes" := VStrings mountTypes ]}, None).

(** [listMountsRc] returns a list of current mounts. *)
Definition listMountsRc (in_ : Params World)
  : Go World fs_Fs (option (Params World) * option error) :=
  Lock liveMountsMutex;;
  entries <- liveMounts_range;;
  let mountTypes := foldl (λ acc kv, acc ++ [snd kv]) [] entries in
  Unlock liveMountsMutex;;
  ret (Some {[ "mountPoints" := VMountInfos mountTypes ]}, None).

End Operations.

(** ** Notions the properties are stated with *)

Section Notions.

Context {World fs_Fs : Type} `{!Collaborators World fs_Fs}.

(** The registry holds a mount capability under [name]: the test [mountRc]
    applies, [mountFns[name] != nil].  A name that [AddRc] stored with a
    nil func is a key of the map but has no capability. *)
Definition registered (fns : gmap string (MountFn World fs_Fs)) (name : string)
  : Prop :=
  map_index fns name ≠ None.

Global Instance registered_dec fns name : Decision (registered fns name).
Proof. unfold registered. apply _. Defined.

(** The names under which [AddRc] has stored an entry. *)
Definition registry_names (fns : gmap string (MountFn World fs_Fs))
  : list string :=
  (map_to_list fns).*1.

(** The fixed probing order, and the first registered name in it; empty
    when there is none. *)
Definition priority : list string := ["mount"; "cmount"; "mount2"].
Definition first_registered (fns : gmap string (MountFn World fs_Fs))
  : string :=
  default "" (head (filter (registered fns) priority)).

(** The name [resolveMountType] leaves in [mountType], and the number of
    registry reads it makes on the way. *)
Definition resolved_name (fns : gmap string (MountFn World fs_Fs))
    (in_ : Params World) : string :=
  let '(mountType, err) := GetString in_ "mountType" in
  if not_nil err || bool_decide (mountType = "") then
    if not_nil (map_index fns "mount") then "mount"
    else if not_nil (map_index fns "cmount") then "cmount"
    else if not_nil (map_index fns "mount2") then "mount2"
    else mountType
  else mountType.

Definition probes (fns : gmap string (MountFn World fs_Fs))
    (in_ : Params World) : nat :=
  let '(mountType, err) := GetString in_ "mountType" in
  if not_nil err || bool_decide (mountType = "") then
    if not_nil (map_index fns "mount") then 1
    else if not_nil (map_index fns "cmount") then 2
    else 3
  else 0.

Definition probe_events (fns : gmap string (MountFn World fs_Fs))
    (in_ : Params World) : list Event :=
  replicate (probes fns in_) (EvRead TmountFns).

(** The request leaves the backend to be chosen: [mountType] is absent,
    not a string, or empty. *)
Definition backend_unspecified (in_ : Params World) : Prop :=
  snd (GetString in_ "mountType") ≠ None ∨
  fst (GetString in_ "mountType") = "".

(** The record [mountRc] builds after the backend has returned. *)
Definition mount_record (res : MountResult World) (fdst : fs_Fs)
    (mountPoint : string) (w : World) : MountInfo World :=
  {| unmountFn := mr_unmountFn res;
     MountedOn := time_Now w;
     Fs := Fs_Name fdst;
     MountPoint := mountPoint |}.

(** The line [mountRc] logs before it returns. *)
Definition mount_log (res : MountResult World) (fdst : fs_Fs)
    (mountPoint mountType : string) : Event :=
  match mr_err res with
  | Some e => EvPrintf "mount FAILED: %v" e
  | None => EvDebugf "Mount for %s created at %s using %s"
              [Fs_String fdst; mountPoint; mountType]
  end.

(** Events a run of [m] from [st] appends to the trace. *)
Definition events {A} (m : Go World fs_Fs A) (st : State World fs_Fs)
  : list Event :=
  drop (length (trace st)) (trace (snd (m st))).

Definition is_mount_call (e : Event) : bool :=
  match e with EvCallMount _ _ => true | _ => false end.
Definition is_unmount_call (e : Event) : bool :=
  match e with EvCallUnmount _ => true | _ => false end.

(** The locking discipline of the registry, checked along a trace: every
    read or write of [mountFns] happens with [mountFnsMutex] held, and no
    mount function is called while it is held.  [held] says whether the
    mutex is held where the trace starts. *)
Fixpoint registry_guarded (held : bool) (tr : list Event) : bool :=
  match tr with
  | [] => true
  | EvLock mountFnsMutex :: tr => registry_guarded true tr
  | EvUnlock mountFnsMutex :: tr => registry_guarded false tr
  | EvRead TmountFns :: tr => held && registry_guarded held tr
  | EvWrite TmountFns :: tr => held && registry_guarded held tr
  | EvCallMount _ _ :: tr => negb held && registry_guarded held tr
  | _ :: tr => registry_guarded held tr
  end.

(** The value a successful call returned under [key]. *)
Definition out_field
    (r : Result (option (Params World) * option error)) (key : string)
  : option (Value World) :=
  match r with
  | Returns (Some out, None) => out !! key
  | _ => None
  end.

End Notions.

(** ** A concrete world, for running the functions on explicit inputs *)

Module Demo.

(** The outside world counts completed teardowns and carries a clock. *)
Record World : Type := mkWorld { teardowns : nat; clock : Time }.

(** A resolved remote is known by its name. *)
Definition fs_Fs : Type := string.

(** Every remote resolves except [nosuch:], which the configuration does
    not know. *)
Definition ErrNoRemote : error :=
  errors_New "didn't find section in config file".
Definition GetFs (p : Params World) (w : World) : (fs_Fs + error) * World :=
  match GetString p "fs" with
  | (s, None) =>
      if bool_decide (s = "nosuch:") then (inr ErrNoRemote, w) else (inl s, w)
  | (_, Some e) => (inr e, w)
  end.

#[export] Instance collaborators : Collaborators World fs_Fs := {|
  Fs_Name := λ f, f;
  Fs_String := λ f, f;
  rc_GetFs := GetFs;
  time_Now := clock;
  range_order := λ A _ m, map_to_list m;
  range_order_perm := λ A _ m, reflexivity (map_to_list m);
|}.

(** A teardown that succeeds, and one that reports a busy mount. *)
Definition teardown_ok : UnmountFn World :=
  Some (λ w, (None, mkWorld (S (teardowns w)) (clock w))).
Definition ErrBusy : error := errors_New "device or resource busy".
Definition teardown_busy : UnmountFn World :=
  Some (λ w, (Some ErrBusy, w)).

(** A backend that mounts, one whose mounts cannot be taken down, and one
    that fails and hands back no teardown. *)
Definition backend_ok : MountFn World fs_Fs :=
  Some (λ _ _ w, (mkMountResult teardown_ok None, w)).
Definition backend_busy : MountFn World fs_Fs :=
  Some (λ _ _ w, (mkMountResult teardown_busy None, w)).
Definition ErrFuse : error := errors_New "fusermount: exit status 1".
Definition backend_failing : MountFn World fs_Fs :=
  Some (λ _ _ w, (mkMountResult None (Some ErrFuse), w)).

Definition w0 : World := mkWorld 0 1000%Z.

(** The package state at start-up: both maps empty. *)
Definition st0 : State World fs_Fs := mkState ∅ ∅ w0 [].

(** The state reached from [s] by running [m]. *)
Definition after {A} (m : Go World fs_Fs A) (s : State World fs_Fs)
  : State World fs_Fs := snd (m s).

Definition st_mount : State World fs_Fs :=
  after (AddRc "mount" backend_ok) st0.
Definition st_cmount : State World fs_Fs :=
  after (AddRc "cmount" backend_ok) st0.
Definition st_failing : State World fs_Fs :=
  after (AddRc "mount" backend_failing) st0.
Definition st_busy : State World fs_Fs :=
  after (AddRc "mount" backend_busy) st0.
Definition st_empty_name : State World fs_Fs :=
  after (AddRc "" backend_ok) st0.
Definition st_three : State World fs_Fs :=
  after (AddRc "cmount" backend_ok)
    (after (AddRc "mount" backend_ok)
       (after (AddRc "mount2" backend_ok) st0)).

(** Requests: with the backend left open, and with a backend named. *)
Definition req (mountPoint fs : string) : Params World :=
  {[ "mountPoint" := VString mountPoint; "fs" := VString fs ]}.
Definition req_typed (mountPoint fs mountType : string) : Params World :=
  <[ "mountType" := VString mountType ]> (req mountPoint fs).

(** States with one record in [liveMounts]: after a mount that worked,
    after one whose teardown will report a busy mount, and after one that
    failed. *)
Definition st_live : State World fs_Fs :=
  after (mountRc (req "/mnt" "remote:")) st_mount.
Definition st_live_busy : State World fs_Fs :=
  after (mountRc (req "/mnt" "remote:")) st_busy.
Definition st_stale : State World fs_Fs :=
  after (mountRc (req "/mnt" "remote:")) st_failing.

(** The records these states hold for [/mnt]. *)
Definition record_of (u : UnmountFn World) : MountInfo World :=
  {| unmountFn := u; MountPoint := "/mnt";
     MountedOn := 1000%Z; Fs := "remote:" |}.

End Demo.

(** ** Calls in sequence *)

Section Calls.

Context {World fs_Fs : Type} `{!Collaborators World fs_Fs}.

(** A call into the package: one of its six functions with its arguments. *)
Inductive Call : Type :=
| CallAddRc (mountUtilName : string) (mountFunction : MountFn World fs_Fs)
| CallMountRc (in_ : Params World)
| CallUnMountRc (in_ : Params World)
| CallPerformUnMount (mountPoint : string)
| CallMountTypesRc (in_ : Params World)
| CallListMountsRc (in_ : Params World).

(** The state a call leaves behind, whether it returned or panicked, and
    the state after a sequence of calls made one after the other. *)
Definition step (c : Call) (st : State World fs_Fs) : State World fs_Fs :=
  match c with
  | CallAddRc name f => snd (AddRc name f st)
  | CallMountRc in_ => snd (mountRc in_ st)
  | CallUnMountRc in_ => snd (unMountRc in_ st)
  | CallPerformUnMount mountPoint => snd (performUnMount mountPoint st)
  | CallMountTypesRc in_ => snd (mountTypesRc in_ st)
  | CallListMountsRc in_ => snd (listMountsRc in_ st)
  end.

Definition steps (cs : list Call) (st : State World fs_Fs)
  : State World fs_Fs :=
  foldl (λ st c, step c st) st cs.

(** Events a call appends to the trace. *)
Definition call_events (c : Call) (st : State World fs_Fs) : list Event :=
  drop (length (trace st)) (trace (step c st)).

(** The mount point a call is about, if it names one. *)
Definition target (c : Call) : option string :=
  match c with
  | CallMountRc in_ | CallUnMountRc in_ =>
      match GetString in_ "mountPoint" with
      | (mountPoint, None) => Some mountPoint
      | (_, Some _) => None
      end
  | CallPerformUnMount mountPoint => Some mountPoint
  | _ => None
  end.

(** Every record of [liveMounts] is stored under its own mount point. *)
Definition keyed (live : gmap string (MountInfo World)) : Prop :=
  ∀ key a, live !! key = Some a → MountPoint a = key.

(** A mutex is used soundly along a trace: it is not locked while held
    (the run would block on itself), not unlocked while free (a fatal
    error), and free at the end.  [held] is its state at the start. *)
Fixpoint mutex_balanced (mu : Mutex) (held : bool) (tr : list Event) : bool :=
  match tr with
  | [] => negb held
  | EvLock m :: tr =>
      if decide (m = mu) then negb held && mutex_balanced mu true tr
      else mutex_balanced mu held tr
  | EvUnlock m :: tr =>
      if decide (m = mu) then held && mutex_balanced mu false tr
      else mutex_balanced mu held tr
  | _ :: tr => mutex_balanced mu held tr
  end.

(** The locking discipline of [liveMounts] along a trace: every read or
    write of the map happens with [liveMountsMutex] held, a teardown is
    called with it held, and a mount function is called with it free. *)
Fixpoint liveMounts_guarded (held : bool) (tr : list Event) : bool :=
  match tr with
  | [] => true
  | EvLock liveMountsMutex :: tr => liveMounts_guarded true tr
  | EvUnlock liveMountsMutex :: tr => liveMounts_guarded false tr
  | EvRead TliveMounts :: tr => held && liveMounts_guarded held tr
  | EvWrite TliveMounts :: tr => held && liveMounts_guarded held tr
  | EvCallUnmount _ :: tr => held && liveMounts_guarded held tr
  | EvCallMount _ _ :: tr => negb held && liveMounts_guarded held tr
  | _ :: tr => liveMounts_guarded held tr
  end.

(** A call out of the package: of a mount function or of a teardown. *)
Definition is_external_call (e : Event) : bool :=
  is_mount_call e || is_unmount_call e.

End Calls.

Arguments Call : clear implicits.

(** ** More of the concrete world *)

Module Scenario.

Import Demo.

(** Two active mounts, at [/mnt] and at [/data]. *)
Definition st_two : State World fs_Fs :=
  after (mountRc (req "/data" "remote:")) st_live.

(** An active mount at [/mnt], with the backend since replaced by one that
    fails. *)
Definition st_backend_broke : State World fs_Fs :=
  after (AddRc "mount" backend_failing) st_live.

(** A teardown that reports a busy mount until it has been tried once. *)
Definition teardown_flaky : UnmountFn World :=
  Some (λ w, if Nat.eqb (teardowns w) 0
             then (Some ErrBusy, mkWorld 1 (clock w))
             else (None, mkWorld (S (teardowns w)) (clock w))).
Definition backend_flaky : MountFn World fs_Fs :=
  Some (λ _ _ w, (mkMountResult teardown_flaky None, w)).
Definition st_live_flaky : State World fs_Fs :=
  after (mountRc (req "/mnt" "remote:"))
    (after (AddRc "mount" backend_flaky) st0).

(** The record a mount through [backend_ok] leaves at a mount point. *)
Definition record_at (mountPoint : string) : MountInfo World :=
  {| unmountFn := teardown_ok; MountPoint := mountPoint;
     MountedOn := 1000%Z; Fs := "remote:" |}.

(** A session: register, mount, list twice, unmount. *)
Definition session : list (Call World fs_Fs) :=
  [CallAddRc "mount" backend_ok;
   CallMountRc (req "/mnt" "remote:");
   CallMountTypesRc ∅;
   CallListMountsRc ∅;
   CallUnMountRc {[ "mountPoint" := VString "/mnt" ]}].

End Scenario.

(** * Properties *)

(** ** How each function runs *)

Section Runs.

Context {World fs_Fs : Type} `{!Collaborators World fs_Fs}.
Implicit Types (st : State World fs_Fs).

(** Probing the registry calls nothing. *)
Lemma probe_events_filter (f : Event → bool) fns (in_ : Params World) :
  f (EvRead TmountFns) = false →
  List.filter f (probe_events (fs_Fs := fs_Fs) fns in_) = [].
Proof.
  intros E. unfold probe_events.
  induction (probes fns in_) as [|n IH]; simpl; [done|]. by rewrite E.
Qed.

Lemma AddRc_run name f st :
  AddRc name f st =
    (Returns tt,
     mkState (<[name := f]> (mountFns st)) (liveMounts st) (world st)
       (trace st ++ [EvLock mountFnsMutex; EvWrite TmountFns;
                     EvUnlock mountFnsMutex])).
Proof.
  unfold AddRc, Lock, Unlock, mountFns_store, bind, emit. simpl.
  by rewrite <- !app_assoc.
Qed.

Lemma map_index_registered (fns : gmap string (MountFn World fs_Fs)) name :
  not_nil (map_index fns name) = bool_decide (registered fns name).
Proof.
  destruct (map_index fns name) eqn:E; simpl; symmetry.
  - apply bool_decide_eq_true_2. unfold registered. by rewrite E.
  - apply bool_decide_eq_false_2. unfold registered. rewrite E. by intros [].
Qed.

Lemma resolveMountType_run in_ st :
  resolveMountType in_ st =
    (Returns (resolved_name (mountFns st) in_),
     set_trace (trace st ++ probe_events (mountFns st) in_) st).
Proof.
  unfold resolveMountType, resolved_name, probe_events, probes.
  destruct (GetString in_ "mountType") as [mountType err].
  destruct (not_nil err || bool_decide (mountType = "")); simpl.
  - unfold bind, mountFns_index, emit, ret; simpl.
    destruct (not_nil (map_index (mountFns st) "mount")); simpl; [done|].
    destruct (not_nil (map_index (mountFns st) "cmount")); simpl.
    { by rewrite <- !app_assoc. }
    destruct (not_nil (map_index (mountFns st) "mount2")); simpl;
      by rewrite <- !app_assoc.
  - unfold ret, set_trace. rewrite app_nil_r. by destruct st.
Qed.

Lemma mountRc_no_mountPoint in_ st s e :
  GetString in_ "mountPoint" = (s, Some e) →
  mountRc in_ st = (Returns (None, Some e), st).
Proof. intros E. unfold mountRc. by rewrite E. Qed.

Lemma mountRc_no_source in_ st mountPoint e w1 :
  GetString in_ "mountPoint" = (mountPoint, None) →
  rc_GetFs in_ (world st) = (inr e, w1) →
  mountRc in_ st =
    (Returns (None, Some e),
     mkState (mountFns st) (liveMounts st) w1
       (trace st ++ probe_events (mountFns st) in_)).
Proof.
  intros E1 E2. unfold mountRc. rewrite E1.
  unfold bind at 1. rewrite resolveMountType_run.
  unfold bind, call_rc_GetFs; simpl. by rewrite E2.
Qed.

Lemma mountRc_unregistered in_ st mountPoint fdst w1 :
  GetString in_ "mountPoint" = (mountPoint, None) →
  rc_GetFs in_ (world st) = (inl fdst, w1) →
  map_index (mountFns st) (resolved_name (mountFns st) in_) = None →
  mountRc in_ st =
    (Returns (None, Some ErrInvalidBackend),
     mkState (mountFns st) (liveMounts st) w1
       (trace st ++ probe_events (mountFns st) in_ ++ [EvRead TmountFns])).
Proof.
  intros E1 E2 E3. unfold mountRc. rewrite E1.
  unfold bind at 1. rewrite resolveMountType_run.
  unfold bind, call_rc_GetFs, mountFns_index, emit; simpl.
  rewrite E2; simpl. rewrite E3; simpl.
  unfold ret. by rewrite <- app_assoc.
Qed.

Lemma mountRc_invoked in_ st mountPoint fdst w1 g res w2 :
  GetString in_ "mountPoint" = (mountPoint, None) →
  rc_GetFs in_ (world st) = (inl fdst, w1) →
  map_index (mountFns st) (resolved_name (mountFns st) in_) = Some g →
  g fdst mountPoint w1 = (res, w2) →
  mountRc in_ st =
    (Returns (None, mr_err res),
     mkState (mountFns st)
       (<[mountPoint := mount_record res fdst mountPoint w2]> (liveMounts st))
       w2
       (trace st ++ probe_events (mountFns st) in_ ++
          [EvRead TmountFns; EvRead TmountFns;
           EvCallMount (resolved_name (mountFns st) in_) mountPoint;
           EvLock liveMountsMutex; EvWrite TliveMounts;
           EvUnlock liveMountsMutex;
           mount_log res fdst mountPoint (resolved_name (mountFns st) in_)])).
Proof.
  intros E1 E2 E3 E4. unfold mountRc. rewrite E1.
  unfold bind at 1. rewrite resolveMountType_run.
  unfold bind, call_rc_GetFs, mountFns_index, emit; simpl.
  rewrite E2; simpl. rewrite E3; simpl.
  rewrite E3. unfold call_MountFn, bind, emit; simpl. rewrite E4; simpl.
  unfold mount_log, mount_record.
  destruct (mr_err res); simpl; unfold ret;
    by rewrite <- !app_assoc.
Qed.

(** [mountRc] calls a mount function exactly when the request names a
    mount point, the source resolves and the resolved name is registered. *)
Lemma mountRc_calls_backend in_ st :
  List.filter is_mount_call (events (mountRc in_) st) ≠ [] ↔
  ∃ mountPoint fdst w1,
    GetString in_ "mountPoint" = (mountPoint, None) ∧
    rc_GetFs in_ (world st) = (inl fdst, w1) ∧
    registered (mountFns st) (resolved_name (mountFns st) in_).
Proof.
  unfold events, registered.
  destruct (GetString in_ "mountPoint") as [mountPoint [e|]] eqn:E1.
  { rewrite (mountRc_no_mountPoint _ _ _ _ E1); simpl. rewrite drop_all.
    split; [done|]. by intros (? & ? & ? & ? & _). }
  destruct (rc_GetFs in_ (world st)) as [[fdst|e] w1] eqn:E2.
  - destruct (map_index (mountFns st) (resolved_name (mountFns st) in_))
      as [g|] eqn:E3.
    + destruct (g fdst mountPoint w1) as [res w2] eqn:E4.
      rewrite (mountRc_invoked _ _ _ _ _ _ _ _ E1 E2 E3 E4); simpl.
      rewrite drop_app_length, List.filter_app, probe_events_filter by done.
      split; [|done]. intros _. by exists mountPoint, fdst, w1.
    + rewrite (mountRc_unregistered _ _ _ _ _ E1 E2 E3); simpl.
      rewrite drop_app_length, List.filter_app, probe_events_filter by done.
      split; [done|]. by intros (? & ? & ? & _ & _ & ?).
  - rewrite (mountRc_no_source _ _ _ _ _ E1 E2); simpl.
    rewrite drop_app_length, probe_events_filter by done.
    split; [done|]. by intros (? & ? & ? & _ & ? & _).
Qed.

Lemma performUnMount_absent mountPoint st :
  liveMounts st !! mountPoint = None →
  performUnMount mountPoint st =
    (Returns (Some ErrNotFound),
     set_trace (trace st ++ [EvLock liveMountsMutex; EvRead TliveMounts;
                             EvUnlock liveMountsMutex]) st).
Proof.
  intros E. unfold performUnMount, defer, bind, Lock, Unlock,
    liveMounts_lookup, emit; simpl.
  rewrite E; simpl. unfold set_trace; simpl. by rewrite <- !app_assoc.
Qed.

Lemma performUnMount_nil mountPoint st mountInfo :
  liveMounts st !! mountPoint = Some mountInfo →
  unmountFn mountInfo = None →
  performUnMount mountPoint st =
    (Panics nil_func_call,
     set_trace (trace st ++ [EvLock liveMountsMutex; EvRead TliveMounts;
                             EvUnlock liveMountsMutex]) st).
Proof.
  intros E1 E2. unfold performUnMount, defer, bind, Lock, Unlock,
    liveMounts_lookup, emit; simpl.
  rewrite E1; simpl. rewrite E2; simpl.
  unfold set_trace; simpl. by rewrite <- !app_assoc.
Qed.

Lemma performUnMount_failed mountPoint st mountInfo u e w' :
  liveMounts st !! mountPoint = Some mountInfo →
  unmountFn mountInfo = Some u →
  u (world st) = (Some e, w') →
  performUnMount mountPoint st =
    (Returns (Some e),
     mkState (mountFns st) (liveMounts st) w'
       (trace st ++ [EvLock liveMountsMutex; EvRead TliveMounts;
                     EvCallUnmount mountPoint; EvUnlock liveMountsMutex])).
Proof.
  intros E1 E2 E3. unfold performUnMount, defer, bind, Lock, Unlock,
    liveMounts_lookup, emit; simpl.
  rewrite E1; simpl. rewrite E2; simpl.
  unfold bind, emit; simpl. rewrite E3; simpl.
  unfold set_trace; simpl. by rewrite <- !app_assoc.
Qed.

Lemma performUnMount_done mountPoint st mountInfo u w' :
  liveMounts st !! mountPoint = Some mountInfo →
  unmountFn mountInfo = Some u →
  u (world st) = (None, w') →
  performUnMount mountPoint st =
    (Returns None,
     mkState (mountFns st) (delete mountPoint (liveMounts st)) w'
       (trace st ++ [EvLock liveMountsMutex; EvRead TliveMounts;
                     EvCallUnmount mountPoint; EvWrite TliveMounts;
                     EvUnlock liveMountsMutex])).
Proof.
  intros E1 E2 E3. unfold performUnMount, defer, bind, Lock, Unlock,
    liveMounts_lookup, emit; simpl.
  rewrite E1; simpl. rewrite E2; simpl.
  unfold bind, emit; simpl. rewrite E3; simpl.
  unfold set_trace; simpl. by rewrite <- !app_assoc.
Qed.

(** [unMountRc] hands on what [performUnMount] did. *)
Lemma unMountRc_run in_ st mountPoint :
  GetString in_ "mountPoint" = (mountPoint, None) →
  unMountRc in_ st =
    (match fst (performUnMount mountPoint st) with
     | Returns err => Returns (None, err)
     | Panics why => Panics why
     end,
     snd (performUnMount mountPoint st)).
Proof.
  intros E. unfold unMountRc. rewrite E. unfold bind.
  destruct (performUnMount mountPoint st) as [[[e|]|why] st']; done.
Qed.

Lemma foldl_snoc_fmap {A B} (f : A → B) (l : list A) (acc : list B) :
  foldl (λ acc x, acc ++ [f x]) acc l = acc ++ (f <$> l).
Proof.
  revert acc. induction l as [|x l IH]; intros acc; simpl.
  - by rewrite app_nil_r.
  - rewrite IH. by rewrite <- app_assoc.
Qed.

Lemma sort_Strings_sorted l : StronglySorted String.le (sort_Strings l).
Proof. apply StronglySorted_merge_sort; apply _. Qed.

Lemma sort_Strings_perm l : sort_Strings l ≡ₚ l.
Proof. apply merge_sort_Permutation. Qed.

(** The result of sorting does not depend on the order of the input. *)
Lemma sort_Strings_order l1 l2 :
  l1 ≡ₚ l2 → sort_Strings l1 = sort_Strings l2.
Proof.
  intros P. apply (StronglySorted_unique String.le);
    [apply sort_Strings_sorted..|].
  by rewrite !sort_Strings_perm.
Qed.

Lemma mountTypesRc_run in_ st :
  mountTypesRc in_ st =
    (Returns
       (Some {[ "mountTypes" :=
                  VStrings (sort_Strings (registry_names (mountFns st))) ]},
        None),
     set_trace (trace st ++ [EvLock mountFnsMutex; EvRead TmountFns;
                             EvUnlock mountFnsMutex]) st).
Proof.
  unfold mountTypesRc, bind, Lock, Unlock, mountFns_range, emit, ret; simpl.
  rewrite foldl_snoc_fmap; simpl.
  rewrite (sort_Strings_order _ (registry_names (mountFns st))).
  - unfold set_trace; simpl. by rewrite <- !app_assoc.
  - unfold registry_names. by rewrite range_order_perm.
Qed.

Lemma listMountsRc_run in_ st :
  listMountsRc in_ st =
    (Returns
       (Some {[ "mountPoints" :=
                  VMountInfos (range_order _ (world st) (liveMounts st)).*2 ]},
        None),
     set_trace (trace st ++ [EvLock liveMountsMutex; EvRead TliveMounts;
                             EvUnlock liveMountsMutex]) st).
Proof.
  unfold listMountsRc, bind, Lock, Unlock, liveMounts_range, emit, ret; simpl.
  rewrite foldl_snoc_fmap; simpl.
  unfold set_trace; simpl. by rewrite <- !app_assoc.
Qed.

End Runs.

(** ** Creating a mount *)

Section CreateMount.

Context {World fs_Fs : Type} `{!Collaborators World fs_Fs}.
Implicit Types (st : State World fs_Fs).

(** C1.  When [mountRc] gets as far as calling the mount function (the
    request names a mount point, the source resolves and the resolved
    backend name is registered), the record built from the teardown
    function, the current time, the name of the source and the mount
    point is stored in [liveMounts] under the mount point, whatever the
    mount function returned.  When it returned an error, that error is
    what [mountRc] returns, and the record is in the map all the same. *)
Theorem mountRc_records_even_on_error
    in_ st mountPoint fdst w1 g res w2 :
  GetString in_ "mountPoint" = (mountPoint, None) →
  rc_GetFs in_ (world st) = (inl fdst, w1) →
  map_index (mountFns st) (resolved_name (mountFns st) in_) = Some g →
  g fdst mountPoint w1 = (res, w2) →
  let record :=
    {| unmountFn := mr_unmountFn res;
       MountPoint := mountPoint;
       MountedOn := time_Now w2;
       Fs := Fs_Name fdst |} in
  let st' := snd (mountRc in_ st) in
  EvCallMount (resolved_name (mountFns st) in_) mountPoint
    ∈ events (mountRc in_) st ∧
  liveMounts st' = <[mountPoint := record]> (liveMounts st) ∧
  (∀ e, mr_err res = Some e →
     fst (mountRc in_ st) = Returns (None, Some e) ∧
     liveMounts st' !! mountPoint = Some record).
Proof.
  intros E1 E2 E3 E4 record st'. subst st'.
  unfold events.
  rewrite (mountRc_invoked _ _ _ _ _ _ _ _ E1 E2 E3 E4); simpl.
  rewrite drop_app_length. split_and!.
  - apply elem_of_app. right. do 2 apply list_elem_of_further.
    apply list_elem_of_here.
  - done.
  - intros e Ee. rewrite Ee. split; [done|]. apply lookup_insert_eq.
Qed.

(** C3, as the code has it.  When the resolved backend name is not
    registered, [mountRc] fails, calls no mount function and leaves
    [liveMounts] as it was.  The error is the invalid-backend error
    whenever the request names a mount point and the source resolves;
    a missing mount point or a source that does not resolve is reported
    first, before the registry is consulted. *)
Theorem mountRc_unregistered_backend in_ st :
  ¬ registered (mountFns st) (resolved_name (mountFns st) in_) →
  let st' := snd (mountRc in_ st) in
  (∃ e, fst (mountRc in_ st) = Returns (None, Some e)) ∧
  List.filter is_mount_call (events (mountRc in_) st) = [] ∧
  liveMounts st' = liveMounts st ∧
  (∀ mountPoint fdst w1,
     GetString in_ "mountPoint" = (mountPoint, None) →
     rc_GetFs in_ (world st) = (inl fdst, w1) →
     fst (mountRc in_ st) = Returns (None, Some ErrInvalidBackend)).
Proof.
  intros U st'. subst st'.
  assert (map_index (mountFns st) (resolved_name (mountFns st) in_) = None)
    as E3.
  { unfold registered in U.
    destruct (map_index (mountFns st) _); [by destruct U|done]. }
  unfold events.
  destruct (GetString in_ "mountPoint") as [mountPoint [e|]] eqn:E1.
  { rewrite (mountRc_no_mountPoint _ _ _ _ E1); simpl.
    rewrite drop_all. split_and!; eauto; done. }
  destruct (rc_GetFs in_ (world st)) as [[fdst|e] w1] eqn:E2.
  - rewrite (mountRc_unregistered _ _ _ _ _ E1 E2 E3); simpl.
    rewrite drop_app_length, List.filter_app, probe_events_filter by done.
    split_and!; eauto.
  - rewrite (mountRc_no_source _ _ _ _ _ E1 E2); simpl.
    rewrite drop_app_length, probe_events_filter by done.
    split_and!; eauto. done.
Qed.

Lemma first_registered_resolved in_ (fns : gmap string (MountFn World fs_Fs)) :
  backend_unspecified in_ →
  resolved_name fns in_ = first_registered fns.
Proof.
  unfold backend_unspecified, resolved_name, first_registered, priority.
  destruct (GetString in_ "mountType") as [mountType err] eqn:E.
  assert (err ≠ None → mountType = "") as Hempty.
  { unfold GetString in E. destruct (in_ !! "mountType") as [[]|];
      by simplify_eq. }
  simpl. intros B.
  assert (mountType = "") as -> by (destruct B; auto).
  rewrite orb_true_r.
  rewrite !map_index_registered.
  rewrite !filter_cons, filter_nil.
  repeat case_bool_decide; repeat case_decide; done.
Qed.

(** C4, as the code has it.  When the request leaves the backend open,
    [mountRc] settles on the first registered name among [mount],
    [cmount], [mount2], in this order, and that is the backend it calls.
    With only [cmount] registered the choice is [cmount].  With none of
    the three registered the choice is the empty name, and looking that
    up fails with the invalid-backend error unless a backend is
    registered under the empty name. *)
Theorem mountRc_backend_selection in_ st :
  backend_unspecified in_ →
  let fns := mountFns st in
  fst (resolveMountType in_ st) = Returns (first_registered fns) ∧
  (∀ mountPoint fdst w1,
     GetString in_ "mountPoint" = (mountPoint, None) →
     rc_GetFs in_ (world st) = (inl fdst, w1) →
     registered fns (first_registered fns) →
     List.filter is_mount_call (events (mountRc in_) st)
       = [EvCallMount (first_registered fns) mountPoint]) ∧
  ((∀ name, registered fns name ↔ name = "cmount") →
     first_registered fns = "cmount") ∧
  ((∀ name, name ∈ priority → ¬ registered fns name) →
     first_registered fns = "" ∧
     (¬ registered fns "" →
      ∀ mountPoint fdst w1,
        GetString in_ "mountPoint" = (mountPoint, None) →
        rc_GetFs in_ (world st) = (inl fdst, w1) →
        fst (mountRc in_ st) = Returns (None, Some ErrInvalidBackend))).
Proof.
  intros B fns. subst fns. split_and!.
  - rewrite resolveMountType_run; simpl.
    by rewrite (first_registered_resolved _ _ B).
  - intros mountPoint fdst w1 E1 E2 R.
    rewrite <- (first_registered_resolved in_ _ B) in *.
    unfold registered in R.
    destruct (map_index (mountFns st) (resolved_name (mountFns st) in_))
      as [g|] eqn:E3; [|done].
    destruct (g fdst mountPoint w1) as [res w2] eqn:E4.
    unfold events.
    rewrite (mountRc_invoked _ _ _ _ _ _ _ _ E1 E2 E3 E4); simpl.
    rewrite drop_app_length, List.filter_app, probe_events_filter by done.
    simpl. unfold mount_log. by destruct (mr_err res).
  - intros Only. unfold first_registered, priority.
    rewrite !filter_cons, filter_nil.
    assert (¬ registered (mountFns st) "mount") by (rewrite Only; done).
    assert (registered (mountFns st) "cmount") by (by rewrite Only).
    repeat case_decide; done.
  - intros No.
    assert (first_registered (mountFns st) = "") as E0.
    { unfold first_registered, priority.
      rewrite !filter_cons, filter_nil.
      assert (¬ registered (mountFns st) "mount") by (apply No; set_solver).
      assert (¬ registered (mountFns st) "cmount") by (apply No; set_solver).
      assert (¬ registered (mountFns st) "mount2") by (apply No; set_solver).
      repeat case_decide; done. }
    split; [done|]. intros N0 mountPoint fdst w1 E1 E2.
    rewrite (mountRc_unregistered _ _ _ _ _ E1 E2); [done|].
    rewrite (first_registered_resolved _ _ B), E0.
    unfold registered in N0.
    destruct (map_index (mountFns st) ""); [by destruct N0|done].
Qed.

End CreateMount.

(** ** Removing a mount *)

Section RemoveMount.

Context {World fs_Fs : Type} `{!Collaborators World fs_Fs}.
Implicit Types (st : State World fs_Fs).

(** Whether [performUnMount] takes the record away is decided by the
    teardown alone. *)
Lemma performUnMount_removes mountPoint st mountInfo :
  liveMounts st !! mountPoint = Some mountInfo →
  liveMounts (snd (performUnMount mountPoint st)) !! mountPoint = None ↔
  ∃ u w', unmountFn mountInfo = Some u ∧ u (world st) = (None, w').
Proof.
  intros E1.
  destruct (unmountFn mountInfo) as [u|] eqn:E2.
  - destruct (u (world st)) as [[e|] w'] eqn:E3.
    + rewrite (performUnMount_failed _ _ _ _ _ _ E1 E2 E3); simpl.
      rewrite E1. split; [done|]. intros (u' & w'' & ? & ?). congruence.
    + rewrite (performUnMount_done _ _ _ _ _ E1 E2 E3); simpl.
      rewrite lookup_delete_eq. split; [|done]. eauto.
  - rewrite (performUnMount_nil _ _ _ E1 E2); simpl.
    rewrite E1. split; [done|]. by intros (u' & w'' & ? & ?).
Qed.

Lemma performUnMount_success_removes mountPoint st :
  fst (performUnMount mountPoint st) = Returns None →
  liveMounts (snd (performUnMount mountPoint st)) !! mountPoint = None.
Proof.
  destruct (liveMounts st !! mountPoint) as [mountInfo|] eqn:E1.
  - destruct (unmountFn mountInfo) as [u|] eqn:E2.
    + destruct (u (world st)) as [[e|] w'] eqn:E3.
      * by rewrite (performUnMount_failed _ _ _ _ _ _ E1 E2 E3).
      * rewrite (performUnMount_done _ _ _ _ _ E1 E2 E3); simpl.
        intros _. apply lookup_delete_eq.
    + by rewrite (performUnMount_nil _ _ _ E1 E2).
  - by rewrite (performUnMount_absent _ _ E1).
Qed.

(** C2.  When the record stored for a mount point holds a nil teardown
    function, [performUnMount] goes straight from the lookup to the call:
    the run ends in the panic of calling a nil func, not in a returned
    error.  Nothing is invoked, the deferred unlock runs, and the record
    stays where it was.  [unMountRc] ends in the same panic. *)
Theorem performUnMount_nil_teardown_panics mountPoint st mountInfo :
  liveMounts st !! mountPoint = Some mountInfo →
  unmountFn mountInfo = None →
  let st' := snd (performUnMount mountPoint st) in
  fst (performUnMount mountPoint st) = Panics nil_func_call ∧
  (∀ err, fst (performUnMount mountPoint st) ≠ Returns err) ∧
  events (performUnMount mountPoint) st
    = [EvLock liveMountsMutex; EvRead TliveMounts;
       EvUnlock liveMountsMutex] ∧
  liveMounts st' = liveMounts st ∧
  (∀ in_, GetString in_ "mountPoint" = (mountPoint, None) →
          fst (unMountRc in_ st) = Panics nil_func_call).
Proof.
  intros E1 E2 st'. subst st'. unfold events.
  split_and!.
  - by rewrite (performUnMount_nil _ _ _ E1 E2).
  - by rewrite (performUnMount_nil _ _ _ E1 E2).
  - rewrite (performUnMount_nil _ _ _ E1 E2); simpl.
    apply drop_app_length.
  - by rewrite (performUnMount_nil _ _ _ E1 E2).
  - intros in_ E. rewrite (unMountRc_run _ _ _ E).
    by rewrite (performUnMount_nil _ _ _ E1 E2).
Qed.

(** C5.  Unmounting a mount point that has no record fails with the
    not-found error and leaves [liveMounts] as it was, through
    [performUnMount] and through [unMountRc] alike.  So when one unmount of
    a mount point has succeeded, the next one fails with not-found. *)
Theorem performUnMount_not_found mountPoint st :
  (liveMounts st !! mountPoint = None →
     fst (performUnMount mountPoint st) = Returns (Some ErrNotFound) ∧
     liveMounts (snd (performUnMount mountPoint st)) = liveMounts st ∧
     ∀ in_, GetString in_ "mountPoint" = (mountPoint, None) →
            fst (unMountRc in_ st) = Returns (None, Some ErrNotFound) ∧
            liveMounts (snd (unMountRc in_ st)) = liveMounts st) ∧
  (fst (performUnMount mountPoint st) = Returns None →
     let st1 := snd (performUnMount mountPoint st) in
     fst (performUnMount mountPoint st1) = Returns (Some ErrNotFound) ∧
     liveMounts (snd (performUnMount mountPoint st1)) = liveMounts st1).
Proof.
  split.
  - intros E. split_and!.
    + by rewrite (performUnMount_absent _ _ E).
    + by rewrite (performUnMount_absent _ _ E).
    + intros in_ Ein. rewrite (unMountRc_run _ _ _ Ein).
      by rewrite (performUnMount_absent _ _ E).
  - intros Ok st1. subst st1.
    pose proof (performUnMount_success_removes _ _ Ok) as E.
    by rewrite (performUnMount_absent _ _ E).
Qed.

(** C6.  When the teardown of an active record returns an error,
    [performUnMount] returns that very error, having called the teardown
    once, and [liveMounts] is as before, so the record is still there for
    another attempt; [unMountRc] passes the error on.  The record leaves
    the map exactly when the teardown was called and returned no error. *)
Theorem performUnMount_teardown_error mountPoint st mountInfo :
  liveMounts st !! mountPoint = Some mountInfo →
  let st' := snd (performUnMount mountPoint st) in
  (∀ u e w', unmountFn mountInfo = Some u →
             u (world st) = (Some e, w') →
     fst (performUnMount mountPoint st) = Returns (Some e) ∧
     List.filter is_unmount_call (events (performUnMount mountPoint) st)
       = [EvCallUnmount mountPoint] ∧
     liveMounts st' = liveMounts st ∧
     liveMounts st' !! mountPoint = Some mountInfo ∧
     ∀ in_, GetString in_ "mountPoint" = (mountPoint, None) →
            fst (unMountRc in_ st) = Returns (None, Some e)) ∧
  (liveMounts st' !! mountPoint = None ↔
     ∃ u w', unmountFn mountInfo = Some u ∧ u (world st) = (None, w')).
Proof.
  intros E1 st'. subst st'. split.
  - intros u e w' E2 E3. unfold events.
    rewrite (performUnMount_failed _ _ _ _ _ _ E1 E2 E3); simpl.
    rewrite drop_app_length. split_and!; try done.
    intros in_ Ein. rewrite (unMountRc_run _ _ _ Ein).
    by rewrite (performUnMount_failed _ _ _ _ _ _ E1 E2 E3).
  - by apply performUnMount_removes.
Qed.

(** C7.  A mount that succeeds, followed by an unmount of the same mount
    point whose teardown succeeds, leaves no record for the mount point.
    Over the two calls the teardown function the mount handed back is
    called exactly once: one call is recorded, and the world is the one
    that a single run of the teardown makes of the world the mount left. *)
Theorem mount_then_unmount_round_trip
    in_ st mountPoint fdst w1 g u w2 w3 :
  GetString in_ "mountPoint" = (mountPoint, None) →
  rc_GetFs in_ (world st) = (inl fdst, w1) →
  map_index (mountFns st) (resolved_name (mountFns st) in_) = Some g →
  g fdst mountPoint w1 = (mkMountResult (Some u) None, w2) →
  u w2 = (None, w3) →
  let st1 := snd (mountRc in_ st) in
  let st2 := snd (performUnMount mountPoint st1) in
  fst (mountRc in_ st) = Returns (None, None) ∧
  (∃ mountInfo, liveMounts st1 !! mountPoint = Some mountInfo ∧
                unmountFn mountInfo = Some u) ∧
  fst (performUnMount mountPoint st1) = Returns None ∧
  liveMounts st2 !! mountPoint = None ∧
  List.filter is_unmount_call
    (events (mountRc in_) st ++ events (performUnMount mountPoint) st1)
    = [EvCallUnmount mountPoint] ∧
  world st2 = w3.
Proof.
  intros E1 E2 E3 E4 E5 st1 st2. subst st2 st1. unfold events.
  rewrite (mountRc_invoked _ _ _ _ _ _ _ _ E1 E2 E3 E4); simpl.
  set (record := mount_record _ _ _ _).
  set (st1 := mkState _ _ _ _).
  assert (liveMounts st1 !! mountPoint = Some record) as L
    by apply lookup_insert_eq.
  assert (unmountFn record = Some u) as U by done.
  assert (u (world st1) = (None, w3)) as R by done.
  rewrite (performUnMount_done _ _ _ _ _ L U R); simpl.
  rewrite lookup_delete_eq, !drop_app_length, !List.filter_app.
  rewrite probe_events_filter by done.
  split_and!; eauto.
Qed.

End RemoveMount.

(** ** Listing *)

Section Listing.

Context {World fs_Fs : Type} `{!Collaborators World fs_Fs}.
Implicit Types (st : State World fs_Fs).

Lemma elem_of_registry_names (fns : gmap string (MountFn World fs_Fs)) name :
  name ∈ registry_names fns ↔ is_Some (fns !! name).
Proof.
  unfold registry_names. rewrite list_elem_of_fmap. split.
  - intros ([k f] & -> & Hin). apply elem_of_map_to_list in Hin. eauto.
  - intros [f Hf]. exists (name, f). split; [done|].
    by apply elem_of_map_to_list.
Qed.

Lemma registry_names_three (f1 f2 f3 : MountFn World fs_Fs) :
  registry_names
    (<["cmount" := f3]> (<["mount" := f2]> (<["mount2" := f1]> ∅)))
  ≡ₚ ["cmount"; "mount"; "mount2"].
Proof.
  unfold registry_names.
  rewrite map_to_list_insert by done.
  rewrite map_to_list_insert by done.
  rewrite map_to_list_insert by done.
  by rewrite map_to_list_empty.
Qed.

(** C8.  [mountTypesRc] never fails and changes neither map.  The list it
    returns holds every name stored in the registry, each once, in
    increasing lexicographic order, whatever order the [range] loop took.
    An empty registry gives the empty list, and a registry filled by
    registering [mount2], [mount], [cmount] in this order gives
    [cmount], [mount], [mount2]. *)
Theorem mountTypesRc_sorted_names in_ st :
  ∃ types,
    fst (mountTypesRc in_ st)
      = Returns (Some {[ "mountTypes" := VStrings types ]}, None) ∧
    mountFns (snd (mountTypesRc in_ st)) = mountFns st ∧
    liveMounts (snd (mountTypesRc in_ st)) = liveMounts st ∧
    (∀ name, name ∈ types ↔ is_Some (mountFns st !! name)) ∧
    NoDup types ∧
    StronglySorted String.le types ∧
    (mountFns st = ∅ → types = []) ∧
    (∀ f1 f2 f3, mountFns st = ∅ →
       let st3 :=
         snd (AddRc "cmount" f3
                (snd (AddRc "mount" f2 (snd (AddRc "mount2" f1 st))))) in
       fst (mountTypesRc in_ st3)
         = Returns
             (Some {[ "mountTypes" := VStrings ["cmount"; "mount"; "mount2"] ]},
              None)).
Proof.
  exists (sort_Strings (registry_names (mountFns st))).
  rewrite mountTypesRc_run; cbn [fst snd]. split_and!; try done.
  - intros name. rewrite sort_Strings_perm. apply elem_of_registry_names.
  - rewrite sort_Strings_perm. apply NoDup_fst_map_to_list.
  - apply sort_Strings_sorted.
  - intros ->. unfold registry_names. by rewrite map_to_list_empty.
  - intros f1 f2 f3 E.
    rewrite !AddRc_run; cbn [fst snd]. rewrite mountTypesRc_run; simpl.
    rewrite E. by rewrite (sort_Strings_order _ _ (registry_names_three _ _ _)).
Qed.

(** C9, as the code has it.  [mountTypesRc] returns its list of names
    under the key [mountTypes], and [listMountsRc] returns the records of
    [liveMounts], each once, under the key [mountPoints]; neither result
    has a key [types] or [mounts].  A record goes out with the three
    fields [MountPoint], [MountedOn] and [Fs]. *)
Theorem list_results_keys in_ st :
  (∃ types,
     out_field (fst (mountTypesRc in_ st)) "mountTypes"
       = Some (VStrings types) ∧
     types ≡ₚ registry_names (mountFns st) ∧
     out_field (fst (mountTypesRc in_ st)) "types" = None) ∧
  (∃ mounts,
     out_field (fst (listMountsRc in_ st)) "mountPoints"
       = Some (VMountInfos mounts) ∧
     mounts ≡ₚ (map_to_list (liveMounts st)).*2 ∧
     out_field (fst (listMountsRc in_ st)) "mounts" = None ∧
     Forall (λ a, MountInfo_json a
                  = [("MountPoint", JString (MountPoint a));
                     ("MountedOn", JTime (MountedOn a));
                     ("Fs", JString (Fs a))]) mounts).
Proof.
  split.
  - exists (sort_Strings (registry_names (mountFns st))).
    rewrite mountTypesRc_run; simpl. split_and!.
    + unfold Params. by rewrite lookup_singleton_eq.
    + apply sort_Strings_perm.
    + unfold Params. by rewrite lookup_singleton_ne.
  - exists (range_order _ (world st) (liveMounts st)).*2.
    rewrite listMountsRc_run; simpl. split_and!.
    + unfold Params. by rewrite lookup_singleton_eq.
    + by rewrite range_order_perm.
    + unfold Params. by rewrite lookup_singleton_ne.
    + by apply Forall_forall.
Qed.

End Listing.

(** ** Locking of the registry *)

Section Locking.

Context {World fs_Fs : Type} `{!Collaborators World fs_Fs}.
Implicit Types (st : State World fs_Fs).

(** [AddRc] and [mountTypesRc] touch [mountFns] under its mutex. *)
Lemma AddRc_guarded name f st :
  registry_guarded false (events (AddRc name f) st) = true.
Proof.
  unfold events. rewrite AddRc_run; simpl. by rewrite drop_app_length.
Qed.

Lemma mountTypesRc_guarded in_ st :
  registry_guarded false (events (mountTypesRc in_) st) = true.
Proof.
  unfold events. rewrite mountTypesRc_run; simpl. by rewrite drop_app_length.
Qed.

Lemma unguarded_read n tl :
  registry_guarded false (replicate n (EvRead TmountFns)
                            ++ EvRead TmountFns :: tl) = false.
Proof. by destruct n. Qed.

(** C10.  [mountRc] does not keep to the locking discipline of the
    registry that [AddRc] and [mountTypesRc] follow.  A call that names a
    mount point and whose source resolves reads [mountFns] and never locks
    [mountFnsMutex]: its trace fails the discipline check. *)
Theorem mountRc_reads_registry_unlocked in_ st mountPoint fdst w1 :
  GetString in_ "mountPoint" = (mountPoint, None) →
  rc_GetFs in_ (world st) = (inl fdst, w1) →
  EvRead TmountFns ∈ events (mountRc in_) st ∧
  (EvLock mountFnsMutex ∉ events (mountRc in_) st) ∧
  registry_guarded false (events (mountRc in_) st) = false.
Proof.
  intros E1 E2. unfold events.
  assert (EvLock mountFnsMutex ∉ probe_events (mountFns st) in_) as Hp.
  { unfold probe_events. intros [? _]%elem_of_replicate. done. }
  destruct (map_index (mountFns st) (resolved_name (mountFns st) in_))
    as [g|] eqn:E3.
  - destruct (g fdst mountPoint w1) as [res w2] eqn:E4.
    rewrite (mountRc_invoked _ _ _ _ _ _ _ _ E1 E2 E3 E4); simpl.
    rewrite drop_app_length. split_and!.
    + apply elem_of_app. right. apply list_elem_of_here.
    + rewrite elem_of_app. intros [?|Hin]; [done|].
      unfold mount_log in Hin.
      rewrite !elem_of_cons, elem_of_nil in Hin.
      destruct (mr_err res); intuition discriminate.
    + apply unguarded_read.
  - rewrite (mountRc_unregistered _ _ _ _ _ E1 E2 E3); simpl.
    rewrite drop_app_length. split_and!.
    + apply elem_of_app. right. apply list_elem_of_here.
    + rewrite elem_of_app, elem_of_cons, elem_of_nil.
      intuition discriminate.
    + apply unguarded_read.
Qed.

End Locking.

(** ** The properties on explicit inputs *)

Section Instances.

Import Demo.

(** A mount through the failing backend returns the backend's error and
    leaves a record without teardown. *)
Lemma demo_failed_mount_recorded :
  fst (mountRc (req "/mnt" "remote:") st_failing)
    = Returns (None, Some ErrFuse) ∧
  liveMounts (snd (mountRc (req "/mnt" "remote:") st_failing)) !! "/mnt"
    = Some (record_of None).
Proof.
  refine (proj2 (proj2
    (mountRc_records_even_on_error (req "/mnt" "remote:") st_failing
       "/mnt" "remote:" w0
       (λ _ _ w, (mkMountResult None (Some ErrFuse), w))
       (mkMountResult None (Some ErrFuse)) w0 _ _ _ _)) ErrFuse _);
    reflexivity.
Defined.

(** Unmounting what the failed mount left behind panics. *)
Lemma demo_stale_unmount_panics :
  liveMounts st_stale !! "/mnt" = Some (record_of None) ∧
  fst (performUnMount "/mnt" st_stale) = Panics nil_func_call.
Proof.
  split; [reflexivity|].
  refine (proj1 (performUnMount_nil_teardown_panics "/mnt" st_stale
                   (record_of None) _ _)); reflexivity.
Defined.

(** A request for the unregistered backend [bogus] whose source does not
    resolve fails with the resolver's error, not with the invalid-backend
    error; one that names no mount point fails for the missing parameter. *)
Lemma demo_bogus_backend_unresolved_source :
  ¬ registered (mountFns st_mount)
      (resolved_name (mountFns st_mount)
         (req_typed "/mnt" "nosuch:" "bogus")) ∧
  fst (mountRc (req_typed "/mnt" "nosuch:" "bogus") st_mount)
    = Returns (None, Some ErrNoRemote) ∧
  fst (mountRc (req_typed "/mnt" "nosuch:" "bogus") st_mount)
    ≠ Returns (None, Some ErrInvalidBackend) ∧
  fst (mountRc {[ "mountType" := VString "bogus" ]} st_mount)
    = Returns (None, Some (ErrParamNotFound "mountPoint")).
Proof.
  split_and!.
  - intros R. exact (R eq_refl).
  - reflexivity.
  - intros E. vm_compute in E. discriminate E.
  - reflexivity.
Qed.

(** The same backend name with a source that resolves. *)
Lemma demo_bogus_backend_rejected :
  fst (mountRc (req_typed "/mnt" "remote:" "bogus") st_mount)
    = Returns (None, Some ErrInvalidBackend) ∧
  liveMounts (snd (mountRc (req_typed "/mnt" "remote:" "bogus") st_mount))
    = liveMounts st_mount.
Proof.
  destruct (mountRc_unregistered_backend
              (req_typed "/mnt" "remote:" "bogus") st_mount
              (λ R, R eq_refl)) as (_ & _ & L & E).
  split; [|exact L].
  apply (E "/mnt" "remote:" w0); reflexivity.
Defined.

(** With a backend registered under the empty name and none under the
    three probed names, a request that leaves the backend open ends in a
    mount through that backend, not in the invalid-backend error. *)
Lemma demo_empty_name_backend_mounts :
  backend_unspecified (req "/mnt" "remote:") ∧
  ¬ registered (mountFns st_empty_name) "mount" ∧
  ¬ registered (mountFns st_empty_name) "cmount" ∧
  ¬ registered (mountFns st_empty_name) "mount2" ∧
  fst (resolveMountType (req "/mnt" "remote:") st_empty_name) = Returns "" ∧
  fst (mountRc (req "/mnt" "remote:") st_empty_name) = Returns (None, None) ∧
  List.filter is_mount_call
    (events (mountRc (req "/mnt" "remote:")) st_empty_name)
    = [EvCallMount "" "/mnt"].
Proof.
  split_and!; try reflexivity.
  - left. discriminate.
  - intros R. exact (R eq_refl).
  - intros R. exact (R eq_refl).
  - intros R. exact (R eq_refl).
Qed.

(** With only [cmount] registered the choice is [cmount]; with nothing
    registered the lookup of the empty name fails. *)
Lemma demo_cmount_selected :
  fst (resolveMountType (req "/mnt" "remote:") st_cmount) = Returns "cmount" ∧
  List.filter is_mount_call (events (mountRc (req "/mnt" "remote:")) st_cmount)
    = [EvCallMount "cmount" "/mnt"] ∧
  fst (mountRc (req "/mnt" "remote:") st0)
    = Returns (None, Some ErrInvalidBackend).
Proof.
  assert (backend_unspecified (req "/mnt" "remote:")) as B
    by (left; discriminate).
  destruct (mountRc_backend_selection (req "/mnt" "remote:") st_cmount B)
    as (S1 & S2 & _ & _).
  destruct (mountRc_backend_selection (req "/mnt" "remote:") st0 B)
    as (_ & _ & _ & S4).
  split_and!.
  - exact S1.
  - apply (S2 "/mnt" "remote:" w0); try reflexivity.
    intros R. discriminate R.
  - apply (proj2 (S4 (λ name _ R, R eq_refl)) (λ R, R eq_refl)
             "/mnt" "remote:" w0); reflexivity.
Defined.

(** Unmounting with nothing mounted, and unmounting twice. *)
Lemma demo_unmount_twice :
  fst (performUnMount "/mnt" st0) = Returns (Some ErrNotFound) ∧
  fst (performUnMount "/mnt" st_live) = Returns None ∧
  fst (performUnMount "/mnt" (snd (performUnMount "/mnt" st_live)))
    = Returns (Some ErrNotFound).
Proof.
  split_and!.
  - apply (proj1 (performUnMount_not_found "/mnt" st0)). reflexivity.
  - reflexivity.
  - apply (proj2 (performUnMount_not_found "/mnt" st_live)). reflexivity.
Defined.

(** A busy mount stays in the map. *)
Lemma demo_busy_unmount_keeps_record :
  fst (performUnMount "/mnt" st_live_busy) = Returns (Some ErrBusy) ∧
  liveMounts (snd (performUnMount "/mnt" st_live_busy)) !! "/mnt"
    = Some (record_of teardown_busy).
Proof.
  assert (liveMounts st_live_busy !! "/mnt" = Some (record_of teardown_busy))
    as E by reflexivity.
  destruct (proj1 (performUnMount_teardown_error "/mnt" st_live_busy _ E)
              (λ w, (Some ErrBusy, w)) ErrBusy w0)
    as (R & _ & _ & L & _); [reflexivity..|].
  exact (conj R L).
Defined.

(** Mount, then unmount: no record, one teardown. *)
Lemma demo_round_trip :
  let st1 := snd (mountRc (req "/mnt" "remote:") st_mount) in
  let st2 := snd (performUnMount "/mnt" st1) in
  liveMounts st2 !! "/mnt" = None ∧
  List.filter is_unmount_call
    (events (mountRc (req "/mnt" "remote:")) st_mount
       ++ events (performUnMount "/mnt") st1)
    = [EvCallUnmount "/mnt"] ∧
  teardowns (world st2) = 1.
Proof.
  destruct (mount_then_unmount_round_trip (req "/mnt" "remote:") st_mount
              "/mnt" "remote:" w0
              (λ _ _ w, (mkMountResult teardown_ok None, w))
              (λ w, (None, mkWorld (S (teardowns w)) (clock w)))
              w0 (mkWorld 1 1000%Z))
    as (_ & _ & _ & L & C & W); [reflexivity..|].
  split_and!; [exact L|exact C|].
  exact (f_equal teardowns W).
Defined.

(** The three backends, registered as [mount2], [mount], [cmount]. *)
Lemma demo_types_sorted :
  fst (mountTypesRc ∅ st_three)
    = Returns
        (Some {[ "mountTypes" := VStrings ["cmount"; "mount"; "mount2"] ]},
         None) ∧
  fst (mountTypesRc ∅ st0)
    = Returns (Some {[ "mountTypes" := VStrings [] ]}, None).
Proof.
  destruct (mountTypesRc_sorted_names ∅ st0)
    as (types & R & _ & _ & _ & _ & _ & E & T).
  split.
  - exact (T backend_ok backend_ok backend_ok eq_refl).
  - rewrite R. by rewrite (E eq_refl).
Defined.

(** Neither listing has a key [types] or [mounts]. *)
Lemma demo_no_types_or_mounts_key :
  out_field (fst (mountTypesRc ∅ st_three)) "types" = None ∧
  out_field (fst (mountTypesRc ∅ st_three)) "mountTypes"
    = Some (VStrings ["cmount"; "mount"; "mount2"]) ∧
  out_field (fst (listMountsRc ∅ st_live)) "mounts" = None ∧
  out_field (fst (listMountsRc ∅ st_live)) "mountPoints"
    = Some (VMountInfos [record_of teardown_ok]) ∧
  (MountInfo_json (record_of teardown_ok)).*1
    = ["MountPoint"; "MountedOn"; "Fs"].
Proof. split_and!; reflexivity. Qed.

Lemma demo_listing_keys :
  out_field (fst (mountTypesRc ∅ st_three)) "types" = None ∧
  out_field (fst (listMountsRc ∅ st_live)) "mounts" = None.
Proof.
  destruct (list_results_keys ∅ st_three) as [(? & _ & _ & T) _].
  destruct (list_results_keys ∅ st_live) as [_ (? & _ & _ & M & _)].
  exact (conj T M).
Defined.

(** A plain mount request reads the registry three times without the
    lock. *)
Lemma demo_mount_reads_unlocked :
  events (mountRc (req "/mnt" "remote:")) st_mount
    = [EvRead TmountFns; EvRead TmountFns; EvRead TmountFns;
       EvCallMount "mount" "/mnt";
       EvLock liveMountsMutex; EvWrite TliveMounts; EvUnlock liveMountsMutex;
       EvDebugf "Mount for %s created at %s using %s"
         ["remote:"; "/mnt"; "mount"]] ∧
  registry_guarded false (events (mountRc (req "/mnt" "remote:")) st_mount)
    = false.
Proof.
  split; [reflexivity|].
  apply (mountRc_reads_registry_unlocked (req "/mnt" "remote:") st_mount
           "/mnt" "remote:" w0); reflexivity.
Defined.

End Instances.

(** * Further properties *)

(** ** Every path of the two functions that branch *)

(** Split a goal about [mountRc in_ st] into its four paths, and one about
    [performUnMount mp st] into its four, rewriting the run in each. *)
Ltac mountRc_paths in_ st :=
  let mountPoint := fresh "mountPoint" in
  let fdst := fresh "fdst" in
  let w1 := fresh "w1" in
  let g := fresh "g" in
  let E1 := fresh "E1" in
  let E2 := fresh "E2" in
  let E3 := fresh "E3" in
  let E4 := fresh "E4" in
  destruct (GetString in_ "mountPoint") as [mountPoint [?|]] eqn:E1;
  [ rewrite (mountRc_no_mountPoint _ _ _ _ E1)
  | destruct (rc_GetFs in_ (world st)) as [[fdst|?] w1] eqn:E2;
    [ destruct (map_index (mountFns st) (resolved_name (mountFns st) in_))
        as [g|] eqn:E3;
      [ destruct (g fdst mountPoint w1) as [?res ?w2] eqn:E4;
        rewrite (mountRc_invoked _ _ _ _ _ _ _ _ E1 E2 E3 E4)
      | rewrite (mountRc_unregistered _ _ _ _ _ E1 E2 E3) ]
    | rewrite (mountRc_no_source _ _ _ _ _ E1 E2) ] ].

Ltac performUnMount_paths mp st :=
  let mountInfo := fresh "mountInfo" in
  let u := fresh "u" in
  let L1 := fresh "L1" in
  let L2 := fresh "L2" in
  let L3 := fresh "L3" in
  destruct (liveMounts st !! mp) as [mountInfo|] eqn:L1;
  [ destruct (unmountFn mountInfo) as [u|] eqn:L2;
    [ destruct (u (world st)) as [[?|] ?w'] eqn:L3;
      [ rewrite (performUnMount_failed _ _ _ _ _ _ L1 L2 L3)
      | rewrite (performUnMount_done _ _ _ _ _ L1 L2 L3) ]
    | rewrite (performUnMount_nil _ _ _ L1 L2) ]
  | rewrite (performUnMount_absent _ _ L1) ].

Section Sequences.

Context {World fs_Fs : Type} `{!Collaborators World fs_Fs}.
Implicit Types (st : State World fs_Fs) (c : Call World fs_Fs).

Lemma unMountRc_no_mountPoint in_ st s e :
  GetString in_ "mountPoint" = (s, Some e) →
  unMountRc in_ st = (Returns (None, Some e), st).
Proof. intros E. unfold unMountRc. by rewrite E. Qed.

(** [unMountRc] leaves the state [performUnMount] leaves, or the state it
    found when the request names no mount point. *)
Lemma step_unMountRc in_ st :
  step (CallUnMountRc in_) st =
    match target (fs_Fs := fs_Fs) (CallUnMountRc in_) with
    | Some mountPoint => step (CallPerformUnMount mountPoint) st
    | None => st
    end.
Proof.
  unfold step, target.
  destruct (GetString in_ "mountPoint") as [mountPoint [e|]] eqn:E.
  - by rewrite (unMountRc_no_mountPoint _ _ _ _ E).
  - by rewrite (unMountRc_run _ _ _ E).
Qed.

Lemma steps_snoc cs c st : steps (cs ++ [c]) st = step c (steps cs st).
Proof. unfold steps. by rewrite foldl_app. Qed.

Lemma probe_events_balanced mu held fns (in_ : Params World) tl :
  mutex_balanced mu held (probe_events (fs_Fs := fs_Fs) fns in_ ++ tl)
  = mutex_balanced mu held tl.
Proof.
  unfold probe_events. by induction (probes fns in_) as [|n IH].
Qed.

Lemma probe_events_liveMounts_guarded held fns (in_ : Params World) tl :
  liveMounts_guarded held (probe_events (fs_Fs := fs_Fs) fns in_ ++ tl)
  = liveMounts_guarded held tl.
Proof.
  unfold probe_events. by induction (probes fns in_) as [|n IH].
Qed.

Lemma probe_events_balanced_all mu held fns (in_ : Params World) :
  mutex_balanced mu held (probe_events (fs_Fs := fs_Fs) fns in_)
  = negb held.
Proof.
  unfold probe_events. by induction (probes fns in_) as [|n IH].
Qed.

Lemma probe_events_liveMounts_guarded_all held fns (in_ : Params World) :
  liveMounts_guarded held (probe_events (fs_Fs := fs_Fs) fns in_) = true.
Proof.
  unfold probe_events. by induction (probes fns in_) as [|n IH].
Qed.

(** Split a goal about a call into the paths of the function called. *)
Ltac step_paths c st :=
  let in_ := fresh "in_" in
  let mp := fresh "mp" in
  let E := fresh "E" in
  destruct c as [?name ?f|in_|in_|mp|in_|in_];
  unfold call_events, step, target in *;
  [ rewrite AddRc_run
  | mountRc_paths in_ st
  | destruct (GetString in_ "mountPoint") as [mp [?|]] eqn:E;
    [ rewrite (unMountRc_no_mountPoint _ _ _ _ E)
    | rewrite (unMountRc_run _ _ _ E); performUnMount_paths mp st ]
  | performUnMount_paths mp st
  | rewrite mountTypesRc_run
  | rewrite listMountsRc_run ];
  simpl; rewrite ?drop_app_length, ?drop_all.

(** X1.  A call changes at most the record of the mount point it names:
    [liveMounts] is the same at every other mount point, and calls that
    name no mount point ([AddRc], the two listings, a request without
    [mountPoint]) leave the whole map as it was. *)
Theorem calls_touch_own_mount_point c st key :
  target c ≠ Some key →
  liveMounts (step c st) !! key = liveMounts st !! key.
Proof.
  intros T. step_paths c st; try done.
  - apply lookup_insert_ne. congruence.
  - apply lookup_delete_ne. congruence.
  - apply lookup_delete_ne. congruence.
Qed.

Lemma step_mountFns c st :
  mountFns (step c st) = mountFns st ∨
  ∃ name f, c = CallAddRc name f ∧
            mountFns (step c st) = <[name := f]> (mountFns st).
Proof.
  step_paths c st; try (by left). right. eauto.
Qed.

(** X2.  The registry is changed by [AddRc] only, and only grows: every
    other call leaves [mountFns] as it was; over any sequence of calls a
    name once stored stays stored; and a name found stored afterwards was
    stored before or was passed to [AddRc] on the way. *)
Theorem registry_changed_by_AddRc_only cs st name :
  (∀ c, (∀ n f, c ≠ CallAddRc n f) → mountFns (step c st) = mountFns st) ∧
  (is_Some (mountFns st !! name) →
   is_Some (mountFns (steps cs st) !! name)) ∧
  (is_Some (mountFns (steps cs st) !! name) →
   is_Some (mountFns st !! name) ∨ ∃ f, CallAddRc name f ∈ cs).
Proof.
  split_and!.
  - intros c N. destruct (step_mountFns c st) as [?|(n & f & -> & _)];
      [done|]. by destruct (N n f).
  - induction cs as [|c cs IH] using rev_ind; [done|].
    intros S. rewrite steps_snoc.
    destruct (step_mountFns c (steps cs st)) as [->|(n & f & _ & ->)];
      [by apply IH|].
    destruct (decide (n = name)) as [->|Hne].
    + rewrite lookup_insert_eq. eauto.
    + rewrite lookup_insert_ne by done. by apply IH.
  - induction cs as [|c cs IH] using rev_ind; [by left|].
    rewrite steps_snoc.
    destruct (step_mountFns c (steps cs st)) as [->|(n & f & -> & ->)].
    + intros S. destruct (IH S) as [?|[f ?]]; [by left|].
      right. exists f. apply elem_of_app. by left.
    + destruct (decide (n = name)) as [->|Hne].
      * intros _. right. exists f. apply elem_of_app. right.
        apply list_elem_of_here.
      * rewrite lookup_insert_ne by done.
        intros S. destruct (IH S) as [?|[f' ?]]; [by left|].
        right. exists f'. apply elem_of_app. by left.
Qed.

Lemma step_keyed c st :
  keyed (liveMounts st) → keyed (liveMounts (step c st)).
Proof.
  intros K. step_paths c st; try done.
  - intros key a. destruct (decide (mountPoint = key)) as [->|Hne].
    + rewrite lookup_insert_eq. by intros [= <-].
    + rewrite lookup_insert_ne by done. apply K.
  - intros key a [_ L]%lookup_delete_Some. by apply K.
  - intros key a [_ L]%lookup_delete_Some. by apply K.
Qed.

(** X3.  In every state reached by calls from one in which each record is
    stored under its own mount point, and so from start-up, each record is
    stored under its own mount point: the [MountPoint] field of a record
    is the key that finds it. *)
Theorem records_keyed_by_mount_point cs st :
  keyed (liveMounts st) → keyed (liveMounts (steps cs st)).
Proof.
  intros K. induction cs as [|c cs IH] using rev_ind; [done|].
  rewrite steps_snoc. by apply step_keyed.
Qed.

(** X4.  Every call uses both mutexes soundly, on every path: it never
    locks a mutex it holds, never unlocks one it does not hold, and holds
    neither when it ends, also when [performUnMount] ends in the panic of
    a nil teardown. *)
Theorem calls_release_their_locks c st mu :
  mutex_balanced mu false (call_events c st) = true.
Proof.
  step_paths c st;
    rewrite ?probe_events_balanced, ?probe_events_balanced_all;
    unfold mount_log; destruct mu; try destruct (mr_err _); reflexivity.
Qed.

(** X5.  Every call keeps to the locking discipline of [liveMounts], on
    every path: the map is read and written only with [liveMountsMutex]
    held, a teardown is called with it held, and a mount function is
    called with it free. *)
Theorem liveMounts_accessed_under_lock c st :
  liveMounts_guarded false (call_events c st) = true.
Proof.
  step_paths c st;
    rewrite ?probe_events_liveMounts_guarded,
      ?probe_events_liveMounts_guarded_all;
    unfold mount_log; try destruct (mr_err _); reflexivity.
Qed.


End Sequences.

(** ** Registering, mounting and unmounting in combination *)

Section Scenarios.

Context {World fs_Fs : Type} `{!Collaborators World fs_Fs}.
Implicit Types (st : State World fs_Fs).

(** A request that names its backend is taken at its word. *)
Lemma resolved_name_named (fns : gmap string (MountFn World fs_Fs))
    (in_ : Params World) name :
  GetString in_ "mountType" = (name, None) → name ≠ "" →
  resolved_name fns in_ = name ∧ probe_events fns in_ = [].
Proof.
  intros E N. unfold probe_events, probes, resolved_name. rewrite E; simpl.
  by rewrite bool_decide_eq_false_2.
Qed.

Lemma set_trace_same st : set_trace (trace st ++ []) st = st.
Proof. rewrite app_nil_r. by destruct st. Qed.

(** X7.  [AddRc] always succeeds, and the last registration under a name
    wins: a lookup of the name finds the function just given (nil if nil
    was given), whatever was stored under it before, and registering twice
    leaves the registry that the second registration alone would leave.
    The other names, [liveMounts] and the world are untouched. *)
Theorem AddRc_last_registration_wins name f st :
  let st' := snd (AddRc name f st) in
  fst (AddRc name f st) = Returns tt ∧
  map_index (mountFns st') name = f ∧
  (∀ other, other ≠ name → mountFns st' !! other = mountFns st !! other) ∧
  (∀ f0, mountFns (snd (AddRc name f (snd (AddRc name f0 st))))
         = mountFns st') ∧
  liveMounts st' = liveMounts st ∧
  world st' = world st.
Proof.
  rewrite !AddRc_run; cbn [fst snd mountFns liveMounts world].
  split_and!; try done.
  - unfold map_index. by rewrite lookup_insert_eq.
  - intros other N. by apply lookup_insert_ne.
  - intros f0. rewrite !AddRc_run; cbn [fst snd mountFns].
    apply insert_insert_eq.
Qed.


(** X9.  A name registered with a nil function is listed by
    [mountTypesRc] and yet cannot be mounted with: it does not count as
    registered, and a request that names it gets the invalid-backend
    error without anything being called. *)
Theorem nil_backend_listed_but_rejected name in_ st :
  let st1 := snd (AddRc name None st) in
  (∃ types,
     out_field (fst (mountTypesRc in_ st1)) "mountTypes"
       = Some (VStrings types) ∧ name ∈ types) ∧
  ¬ registered (mountFns st1) name ∧
  (name ≠ "" →
   GetString in_ "mountType" = (name, None) →
   ∀ mountPoint fdst w1,
     GetString in_ "mountPoint" = (mountPoint, None) →
     rc_GetFs in_ (world st1) = (inl fdst, w1) →
     fst (mountRc in_ st1) = Returns (None, Some ErrInvalidBackend) ∧
     List.filter is_external_call (events (mountRc in_) st1) = []).
Proof.
  intros st1. subst st1. rewrite AddRc_run; cbn [snd].
  set (st1 := mkState _ _ _ _).
  assert (map_index (mountFns st1) name = None) as Nil.
  { unfold map_index. subst st1; simpl. by rewrite lookup_insert_eq. }
  split_and!.
  - exists (sort_Strings (registry_names (mountFns st1))).
    rewrite mountTypesRc_run; simpl. split.
    + unfold Params. by rewrite lookup_singleton_eq.
    + rewrite sort_Strings_perm. apply elem_of_registry_names.
      rewrite lookup_insert_eq. eauto.
  - unfold registered. rewrite Nil. intros R. by destruct R.
  - intros N Et mountPoint fdst w1 E1 E2.
    destruct (resolved_name_named (mountFns st1) in_ name Et N) as [Rn Pe].
    assert (map_index (mountFns st1) (resolved_name (mountFns st1) in_)
            = None) as E3 by (by rewrite Rn).
    unfold events.
    rewrite (mountRc_unregistered in_ st1 _ _ _ E1 E2 E3).
    rewrite Pe; simpl. by rewrite drop_app_length.
Qed.

(** X10.  Requests are turned down before anything happens.  Without a
    usable [mountPoint], [mountRc] and [unMountRc] return the parameter
    error and leave the state exactly as it was, trace included.  When the
    source does not resolve, [mountRc] returns the resolver's error,
    having called no backend and changed neither map, even if the backend
    asked for is registered. *)
Theorem requests_rejected_before_any_effect in_ st :
  (∀ s e, GetString in_ "mountPoint" = (s, Some e) →
     mountRc in_ st = (Returns (None, Some e), st) ∧
     unMountRc in_ st = (Returns (None, Some e), st)) ∧
  (∀ mountPoint e w1,
     GetString in_ "mountPoint" = (mountPoint, None) →
     rc_GetFs in_ (world st) = (inr e, w1) →
     let st' := snd (mountRc in_ st) in
     fst (mountRc in_ st) = Returns (None, Some e) ∧
     List.filter is_external_call (events (mountRc in_) st) = [] ∧
     mountFns st' = mountFns st ∧
     liveMounts st' = liveMounts st ∧
     world st' = w1).
Proof.
  split.
  - intros s e E. split.
    + by apply mountRc_no_mountPoint with s.
    + by apply unMountRc_no_mountPoint with s.
  - intros mountPoint e w1 E1 E2 st'. subst st'. unfold events.
    rewrite (mountRc_no_source _ _ _ _ _ E1 E2); simpl.
    by rewrite drop_app_length, probe_events_filter.
Qed.

(** X11.  A backend named in the request is never replaced by another.
    With a non-empty [mountType], [mountRc] does not probe the registry
    for a default, and when that name is not registered the request fails
    with the invalid-backend error, also when [mount], [cmount] or
    [mount2] are there to be had. *)
Theorem named_backend_no_fallback in_ st name :
  GetString in_ "mountType" = (name, None) →
  name ≠ "" →
  resolveMountType in_ st = (Returns name, st) ∧
  (¬ registered (mountFns st) name →
   ∀ mountPoint fdst w1,
     GetString in_ "mountPoint" = (mountPoint, None) →
     rc_GetFs in_ (world st) = (inl fdst, w1) →
     fst (mountRc in_ st) = Returns (None, Some ErrInvalidBackend) ∧
     events (mountRc in_) st = [EvRead TmountFns] ∧
     liveMounts (snd (mountRc in_ st)) = liveMounts st).
Proof.
  intros Et N.
  destruct (resolved_name_named (mountFns st) in_ name Et N) as [Rn Pe].
  split.
  - rewrite resolveMountType_run, Rn, Pe. by rewrite set_trace_same.
  - intros U mountPoint fdst w1 E1 E2.
    assert (map_index (mountFns st) (resolved_name (mountFns st) in_)
            = None) as E3.
    { rewrite Rn. unfold registered in U.
      destruct (map_index (mountFns st) name); [by destruct U|done]. }
    unfold events.
    rewrite (mountRc_unregistered _ _ _ _ _ E1 E2 E3), Pe; simpl.
    by rewrite drop_app_length.
Qed.

(** X12.  Mounting on a mount point that already has a record replaces
    the record and drops the old teardown without calling it.  The new
    record holds whatever teardown the new call got, so when the new mount
    fails and hands back nil, the mount point that could be unmounted
    before can no longer be: [performUnMount] panics. *)
Theorem mountRc_replaces_record
    in_ st mountPoint old fdst w1 g res w2 :
  liveMounts st !! mountPoint = Some old →
  GetString in_ "mountPoint" = (mountPoint, None) →
  rc_GetFs in_ (world st) = (inl fdst, w1) →
  map_index (mountFns st) (resolved_name (mountFns st) in_) = Some g →
  g fdst mountPoint w1 = (res, w2) →
  let st' := snd (mountRc in_ st) in
  (∃ new, liveMounts st' !! mountPoint = Some new ∧
          unmountFn new = mr_unmountFn res) ∧
  List.filter is_unmount_call (events (mountRc in_) st) = [] ∧
  size (liveMounts st') = size (liveMounts st) ∧
  (mr_unmountFn res = None →
   fst (performUnMount mountPoint st') = Panics nil_func_call).
Proof.
  intros L E1 E2 E3 E4 st'. subst st'. unfold events.
  rewrite (mountRc_invoked _ _ _ _ _ _ _ _ E1 E2 E3 E4); simpl.
  set (record := mount_record _ _ _ _).
  set (st1 := mkState _ _ _ _).
  assert (liveMounts st1 !! mountPoint = Some record) as L1
    by apply lookup_insert_eq.
  split_and!.
  - by exists record.
  - rewrite drop_app_length, List.filter_app, probe_events_filter by done.
    simpl. unfold mount_log. by destruct (mr_err res).
  - subst st1; simpl. by apply map_size_insert_Some.
  - intros Nil. by rewrite (performUnMount_nil _ _ _ L1 Nil).
Qed.

(** X13.  An unmount that failed can be tried again.  When the teardown
    returns an error the first time and succeeds the second time, the
    second [performUnMount] calls the same teardown again, on the world
    the first attempt left, returns nil and removes the record. *)
Theorem unmount_retry mountPoint st mountInfo u e w1 w2 :
  liveMounts st !! mountPoint = Some mountInfo →
  unmountFn mountInfo = Some u →
  u (world st) = (Some e, w1) →
  u w1 = (None, w2) →
  let st1 := snd (performUnMount mountPoint st) in
  let st2 := snd (performUnMount mountPoint st1) in
  fst (performUnMount mountPoint st) = Returns (Some e) ∧
  fst (performUnMount mountPoint st1) = Returns None ∧
  liveMounts st2 !! mountPoint = None ∧
  world st2 = w2 ∧
  List.filter is_unmount_call
    (events (performUnMount mountPoint) st
       ++ events (performUnMount mountPoint) st1)
    = [EvCallUnmount mountPoint; EvCallUnmount mountPoint].
Proof.
  intros L U R1 R2 st1 st2. subst st2 st1. unfold events.
  rewrite (performUnMount_failed _ _ _ _ _ _ L U R1); cbn [fst snd].
  set (st1 := mkState _ _ _ _).
  assert (liveMounts st1 !! mountPoint = Some mountInfo) as L1 by done.
  assert (u (world st1) = (None, w2)) as R by done.
  rewrite (performUnMount_done _ _ _ _ _ L1 U R); simpl.
  rewrite lookup_delete_eq, !drop_app_length. done.
Qed.

Lemma keyed_mount_points (live : gmap string (MountInfo World)) :
  keyed live → MountPoint <$> (map_to_list live).*2 = (map_to_list live).*1.
Proof.
  intros K.
  assert (Forall (λ ka, MountPoint (snd ka) = fst ka) (map_to_list live))
    as F.
  { apply Forall_forall. intros [key a] Hin. simpl.
    apply K. by apply elem_of_map_to_list. }
  induction (map_to_list live) as [|[key a] l IH]; [done|].
  apply Forall_cons in F as [Hka F]. csimpl in *.
  by rewrite Hka, (IH F).
Qed.

(** X14.  [listMountsRc] lists the active mounts and nothing else.  It
    never fails and changes neither map.  When every record is stored
    under its own mount point, as it is from start-up on, the list has one
    record per mount point of [liveMounts] and no two records with the
    same mount point, each listed mount point is one that an unmount will
    find, and listing again gives the same records, up to their order. *)
Theorem listMountsRc_lists_active in_ st :
  keyed (liveMounts st) →
  let st' := snd (listMountsRc in_ st) in
  ∃ mounts,
    fst (listMountsRc in_ st)
      = Returns (Some {[ "mountPoints" := VMountInfos mounts ]}, None) ∧
    mountFns st' = mountFns st ∧
    liveMounts st' = liveMounts st ∧
    NoDup (MountPoint <$> mounts) ∧
    (∀ a, a ∈ mounts ↔ liveMounts st !! MountPoint a = Some a) ∧
    (∀ key, key ∈ MountPoint <$> mounts ↔ is_Some (liveMounts st !! key)) ∧
    (∃ again,
       fst (listMountsRc in_ st')
         = Returns (Some {[ "mountPoints" := VMountInfos again ]}, None) ∧
       again ≡ₚ mounts).
Proof.
  intros K st'. subst st'.
  exists (range_order _ (world st) (liveMounts st)).*2.
  rewrite !listMountsRc_run; cbn [fst snd]. simpl.
  assert ((range_order _ (world st) (liveMounts st)).*2
          ≡ₚ (map_to_list (liveMounts st)).*2) as P
    by (by rewrite range_order_perm).
  split_and!; try done.
  - rewrite P, (keyed_mount_points _ K). apply NoDup_fst_map_to_list.
  - intros a. rewrite P, list_elem_of_fmap. split.
    + intros ([key a'] & -> & Hin). simpl.
      apply elem_of_map_to_list in Hin. by rewrite (K _ _ Hin).
    + intros L. exists (MountPoint a, a). split; [done|].
      by apply elem_of_map_to_list.
  - intros key. rewrite P, (keyed_mount_points _ K), list_elem_of_fmap.
    split.
    + intros ([key' a] & -> & Hin). apply elem_of_map_to_list in Hin. eauto.
    + intros [a L]. exists (key, a). split; [done|].
      by apply elem_of_map_to_list.
  - eexists. split; [done|]. by rewrite !range_order_perm.
Qed.

(** X15.  Registering shows in the listing, once.  After [AddRc] the name
    is in the list [mountTypesRc] returns.  When the name was stored
    already the list is the one returned before; when it is new the list
    is the old one with the name put in its place in the order. *)
Theorem mountTypesRc_after_AddRc name f in_ st :
  let st1 := snd (AddRc name f st) in
  ∃ before after,
    fst (mountTypesRc in_ st)
      = Returns (Some {[ "mountTypes" := VStrings before ]}, None) ∧
    fst (mountTypesRc in_ st1)
      = Returns (Some {[ "mountTypes" := VStrings after ]}, None) ∧
    name ∈ after ∧
    (is_Some (mountFns st !! name) → after = before) ∧
    (mountFns st !! name = None →
     after ≡ₚ name :: before ∧ StronglySorted String.le after).
Proof.
  intros st1. subst st1. rewrite AddRc_run; cbn [snd].
  exists (sort_Strings (registry_names (mountFns st))),
    (sort_Strings (registry_names (<[name := f]> (mountFns st)))).
  rewrite !mountTypesRc_run; cbn [fst mountFns]. split_and!; try done.
  - rewrite sort_Strings_perm. apply elem_of_registry_names.
    rewrite lookup_insert_eq. eauto.
  - intros [f0 S]. apply sort_Strings_order. unfold registry_names.
    rewrite <- (insert_delete_id (mountFns st) name f0 S) at 2.
    rewrite <- (insert_delete_eq (mountFns st)).
    rewrite !map_to_list_insert by apply lookup_delete_eq. done.
  - intros S. split; [|apply sort_Strings_sorted].
    rewrite !sort_Strings_perm. unfold registry_names.
    by rewrite map_to_list_insert.
Qed.

End Scenarios.

(** ** The further properties on explicit inputs *)

Section MoreInstances.

Import Demo Scenario.

(** Unmounting [/mnt] leaves the mount at [/data] alone. *)
Lemma demo_unmount_leaves_other_mount :
  liveMounts (step (CallPerformUnMount "/mnt") st_two) !! "/data"
    = Some (record_at "/data") ∧
  liveMounts (step (CallPerformUnMount "/mnt") st_two) !! "/mnt" = None.
Proof.
  split; [|reflexivity].
  rewrite (calls_touch_own_mount_point (CallPerformUnMount "/mnt") st_two
             "/data"); [reflexivity|].
  intros E. discriminate E.
Defined.

(** The backend registered at the start of the session is still there at
    its end, and [cmount], never registered, is not. *)
Lemma demo_session_registry :
  is_Some (mountFns (steps session st0) !! "mount") ∧
  ¬ is_Some (mountFns (steps session st0) !! "cmount").
Proof.
  destruct (registry_changed_by_AddRc_only (drop 1 session) st_mount "mount")
    as (_ & Kept & _).
  destruct (registry_changed_by_AddRc_only session st0 "cmount")
    as (_ & _ & From).
  split.
  - apply Kept. by eexists.
  - intros S. destruct (From S) as [[f E]|[f Hin]]; [discriminate E|].
    unfold session in Hin.
    repeat (apply elem_of_cons in Hin as [Hin|Hin]; [discriminate Hin|]).
    by apply elem_of_nil in Hin.
Defined.

(** Records stay keyed by mount point through the session. *)
Lemma demo_session_keyed :
  keyed (liveMounts (steps (take 2 session) st0)) ∧
  liveMounts (steps (take 2 session) st0) !! "/mnt" = Some (record_at "/mnt").
Proof.
  split; [|reflexivity].
  apply records_keyed_by_mount_point.
  intros key a L. discriminate L.
Defined.


(** [mount2] registered with nil: listed, not mountable. *)
Lemma demo_nil_backend :
  let st1 := snd (AddRc "mount2" None st0) in
  out_field (fst (mountTypesRc ∅ st1)) "mountTypes"
    = Some (VStrings ["mount2"]) ∧
  fst (mountRc (req_typed "/mnt" "remote:" "mount2") st1)
    = Returns (None, Some ErrInvalidBackend).
Proof.
  split; [reflexivity|].
  destruct (nil_backend_listed_but_rejected "mount2"
              (req_typed "/mnt" "remote:" "mount2") st0) as (_ & _ & Rej).
  apply (Rej ltac:(discriminate) eq_refl "/mnt" "remote:" w0); reflexivity.
Defined.

(** A request without parameters, and one for an unknown remote. *)
Lemma demo_requests_rejected :
  mountRc ∅ st_mount
    = (Returns (None, Some (ErrParamNotFound "mountPoint")), st_mount) ∧
  unMountRc ∅ st_live
    = (Returns (None, Some (ErrParamNotFound "mountPoint")), st_live) ∧
  fst (mountRc (req "/mnt" "nosuch:") st_mount)
    = Returns (None, Some ErrNoRemote) ∧
  liveMounts (snd (mountRc (req "/mnt" "nosuch:") st_mount))
    = liveMounts st_mount.
Proof.
  destruct (requests_rejected_before_any_effect ∅ st_mount) as [M _].
  destruct (requests_rejected_before_any_effect ∅ st_live) as [U _].
  destruct (requests_rejected_before_any_effect (req "/mnt" "nosuch:")
              st_mount) as [_ S].
  destruct (S "/mnt" ErrNoRemote w0) as (R & _ & _ & L & _);
    [reflexivity..|].
  split_and!; [|  |exact R|exact L].
  - apply (M "" (ErrParamNotFound "mountPoint")). reflexivity.
  - apply (U "" (ErrParamNotFound "mountPoint")). reflexivity.
Defined.

(** Asking for [bogus] with all three backends registered. *)
Lemma demo_no_fallback :
  fst (mountRc (req_typed "/mnt" "remote:" "bogus") st_three)
    = Returns (None, Some ErrInvalidBackend) ∧
  events (mountRc (req_typed "/mnt" "remote:" "bogus")) st_three
    = [EvRead TmountFns].
Proof.
  destruct (named_backend_no_fallback (req_typed "/mnt" "remote:" "bogus")
              st_three "bogus") as [_ N]; [reflexivity|discriminate|].
  destruct (N (λ R, R eq_refl) "/mnt" "remote:" w0) as (R & E & _);
    [reflexivity..|].
  exact (conj R E).
Defined.

(** A failed mount over the active mount at [/mnt]. *)
Lemma demo_failed_remount :
  liveMounts st_backend_broke !! "/mnt" = Some (record_at "/mnt") ∧
  fst (mountRc (req "/mnt" "remote:") st_backend_broke)
    = Returns (None, Some ErrFuse) ∧
  fst (performUnMount "/mnt"
         (snd (mountRc (req "/mnt" "remote:") st_backend_broke)))
    = Panics nil_func_call.
Proof.
  split; [reflexivity|]. split; [reflexivity|].
  destruct (mountRc_replaces_record (req "/mnt" "remote:") st_backend_broke
              "/mnt" (record_at "/mnt") "remote:" w0
              (λ _ _ w, (mkMountResult None (Some ErrFuse), w))
              (mkMountResult None (Some ErrFuse)) w0)
    as (_ & _ & _ & P); [reflexivity..|].
  exact (P eq_refl).
Defined.

(** The flaky teardown: busy at first, gone at the second attempt. *)
Lemma demo_unmount_retry :
  let st1 := snd (performUnMount "/mnt" st_live_flaky) in
  fst (performUnMount "/mnt" st_live_flaky) = Returns (Some ErrBusy) ∧
  fst (performUnMount "/mnt" st1) = Returns None ∧
  liveMounts (snd (performUnMount "/mnt" st1)) !! "/mnt" = None.
Proof.
  destruct (unmount_retry "/mnt" st_live_flaky
              {| unmountFn := teardown_flaky; MountPoint := "/mnt";
                 MountedOn := 1000%Z; Fs := "remote:" |}
              (λ w, if Nat.eqb (teardowns w) 0
                    then (Some ErrBusy, mkWorld 1 (clock w))
                    else (None, mkWorld (S (teardowns w)) (clock w)))
              ErrBusy (mkWorld 1 1000%Z) (mkWorld 2 1000%Z))
    as (R1 & R2 & L & _); [reflexivity..|].
  exact (conj R1 (conj R2 L)).
Defined.

(** Listing the two mounts. *)
Lemma demo_list_two_mounts :
  ∃ mounts,
    fst (listMountsRc ∅ st_two)
      = Returns (Some {[ "mountPoints" := VMountInfos mounts ]}, None) ∧
    record_at "/mnt" ∈ mounts ∧ record_at "/data" ∈ mounts ∧
    NoDup (MountPoint <$> mounts).
Proof.
  assert (keyed (liveMounts st_two)) as K.
  { apply (step_keyed (CallMountRc (req "/data" "remote:")) st_live).
    apply (step_keyed (CallMountRc (req "/mnt" "remote:")) st_mount).
    intros key a L. discriminate L. }
  destruct (listMountsRc_lists_active ∅ st_two K)
    as (mounts & R & _ & _ & N & In & _).
  exists mounts. split_and!; [exact R| | |exact N].
  - apply In. reflexivity.
  - apply In. reflexivity.
Defined.

(** Registering [cmount] beside [mount], then [mount] once more. *)
Lemma demo_listing_after_registration :
  out_field (fst (mountTypesRc ∅ (snd (AddRc "cmount" backend_ok st_mount))))
    "mountTypes" = Some (VStrings ["cmount"; "mount"]) ∧
  fst (mountTypesRc ∅ (snd (AddRc "mount" backend_busy st_mount)))
    = fst (mountTypesRc ∅ st_mount).
Proof.
  split; [reflexivity|].
  destruct (mountTypesRc_after_AddRc "mount" backend_busy ∅ st_mount)
    as (before & after' & B & A & _ & Same & _).
  rewrite A, B. by rewrite (Same ltac:(by eexists)).
Defined.

End MoreInstances.
